(** * Sprout: authentication front-end, quiescing manager and MMF service

    A shallow embedding of three source files of the Sprout SIP router,

      - include/mmfservice.h          (module [MMFService]),
      - sprout/quiescing_manager.cpp  (module [QuiescingManager]),
      - sprout/authentication.cpp     (module [Authentication]),

    together with the properties of their specification that can be
    stated over them.  Every definition carries the name of the C++
    function it embeds. *)

From stdpp Require Import base option gmap strings list fin_maps.
From Stdlib Require Import ZArith Ascii String List Lia.
Import ListNotations.

Open Scope string_scope.

(* ===================================================================== *)
(** * include/mmfservice.h *)
(* ===================================================================== *)

Module MMFService.

(** [MMFCfg] is declared in mmf.h; the service only calls its two
    accessors [apply_pre_as()] and [apply_post_as()].  [MMFCfg::ptr] is a
    shared pointer obtained from [new], hence never null in the map. *)
Record MMFCfg := mkMMFCfg {
  apply_pre_as : bool;
  apply_post_as : bool
}.

(** C++ exceptions that can escape the inline members. *)
Inductive exn := std_out_of_range.

(** A computation that either throws or returns. *)
Inductive Exc (A : Type) :=
| Throw (e : exn)
| Return (a : A).
Arguments Throw {A} e.
Arguments Return {A} a.

Definition bindE {A B} (m : Exc A) (k : A -> Exc B) : Exc B :=
  match m with
  | Throw e => Throw e
  | Return a => k a
  end.

Notation "'try*' x := m 'in' k" := (bindE m (fun x => k))
  (at level 10, x name, m at level 100, k at level 200).

(** The private member the inline functions read. *)
Record t := mkMMFService {
  _mmf_config : gmap string MMFCfg
}.

(** [std::map::at]: throws [std::out_of_range] on a missing key. *)
Definition map_at (m : gmap string MMFCfg) (k : string) : Exc MMFCfg :=
  match m !! k with
  | Some c => Return c
  | None => Throw std_out_of_range
  end.

(** [std::map::count]: 0 or 1. *)
Definition map_count (m : gmap string MMFCfg) (k : string) : nat :=
  match m !! k with
  | Some _ => 1
  | None => 0
  end.

(** [return _mmf_config.at(address);] *)
Definition get_address_config (self : t) (address : string) : Exc MMFCfg :=
  map_at (_mmf_config self) address.

(** [return _mmf_config.count(address);] converted to [bool]. *)
Definition has_config_for_address (self : t) (address : string) : bool :=
  negb (Nat.eqb (map_count (_mmf_config self) address) 0).

(** [if (has_config_for_address(address) &&
         get_address_config(address)->apply_pre_as()) return true;
     else return false;]
    The right operand of [&&] is evaluated only when the left one is
    true. *)
Definition apply_mmf_pre_as (self : t) (address : string) : Exc bool :=
  try* cond := (if has_config_for_address self address
                then try* cfg := get_address_config self address in
                     Return (apply_pre_as cfg)
                else Return false) in
  if cond then Return true else Return false.

Definition apply_mmf_post_as (self : t) (address : string) : Exc bool :=
  try* cond := (if has_config_for_address self address
                then try* cfg := get_address_config self address in
                     Return (apply_post_as cfg)
                else Return false) in
  if cond then Return true else Return false.

End MMFService.

(* ===================================================================== *)
(** * sprout/quiescing_manager.cpp *)
(* ===================================================================== *)

Module QuiescingManager.

(** The inputs and states of quiescing_manager.h.  [process_input] takes
    an [int]; its two leading assertions restrict it to these values. *)
Inductive Input :=
| INPUT_QUIESCE
| INPUT_FLOWS_GONE
| INPUT_CONNS_GONE
| INPUT_UNQUIESCE.

Inductive State :=
| STATE_ACTIVE
| STATE_QUIESCING_FLOWS
| STATE_QUIESCING_CONNS
| STATE_QUIESCED.

(** What a call of [process_input] does that is visible outside it, in
    the order it happens. *)
Inductive Event :=
| Call_quiesce_untrusted_interface
| Call_unquiesce_untrusted_interface
| Call_quiesce_connections
| Call_unquiesce_connections
| Call_quiesce_complete
| Call_flows_gone
| ConnTracker_quiesce
| ConnTracker_unquiesce
| Call_invalid_input (input : Input) (state : State)
| Assert_false.

Record QM := mkQM {
  _state : State;
  _edge_proxy : bool;
  events : list Event
}.

(** A member function either returns or dies in [assert]. *)
Inductive Outcome :=
| Returned (q : QM)
| Aborted (q : QM).

Definition final (o : Outcome) : QM :=
  match o with Returned q | Aborted q => q end.

Definition Stmt := QM -> Outcome.

Definition skip : Stmt := Returned.

Definition seq (s1 s2 : Stmt) : Stmt := fun q =>
  match s1 q with
  | Returned q' => s2 q'
  | Aborted q' => Aborted q'
  end.

Notation "s1 ;> s2" := (seq s1 s2) (at level 100, right associativity).

Definition emit (e : Event) : Stmt := fun q =>
  Returned (mkQM (_state q) (_edge_proxy q) (events q ++ [e])).

Definition set_state (s : State) : Stmt := fun q =>
  Returned (mkQM s (_edge_proxy q) (events q)).

Section Build.

(** [ndebug = true] is a build with [NDEBUG], where [assert] expands
    to nothing. *)
Variable ndebug : bool.

(** [assert(false)] *)
Definition assert_false : Stmt := fun q =>
  if ndebug then Returned q
  else Aborted (mkQM (_state q) (_edge_proxy q) (events q ++ [Assert_false])).

Definition invalid_input (input : Input) (state : State) : Stmt :=
  emit (Call_invalid_input input state) ;> assert_false.

(** [flows_gone()] queues [INPUT_FLOWS_GONE]; the FSM is running, so
    [send_input] only pushes it on [_input_q]. *)
Definition quiesce_untrusted_interface : Stmt :=
  emit Call_quiesce_untrusted_interface ;>
  fun q => if _edge_proxy q then skip q else emit Call_flows_gone q.

Definition quiesce_connections : Stmt :=
  emit Call_quiesce_connections ;> emit ConnTracker_quiesce.

Definition quiesce_complete : Stmt :=
  emit Call_quiesce_complete.

Definition unquiesce_connections : Stmt :=
  emit Call_unquiesce_connections ;> emit ConnTracker_unquiesce.

Definition unquiesce_untrusted_interface : Stmt :=
  emit Call_unquiesce_untrusted_interface.

(** The inner [switch (input)] of each [case] of the outer switch.
    [invalid_input(input, _state)] reads [_state] when it is called. *)
Definition case_STATE_ACTIVE (input : Input) : Stmt :=
  match input with
  | INPUT_QUIESCE =>
      set_state STATE_QUIESCING_FLOWS ;> quiesce_untrusted_interface
  | INPUT_FLOWS_GONE | INPUT_CONNS_GONE => skip
  | INPUT_UNQUIESCE => fun q => invalid_input input (_state q) q
  end.

Definition case_STATE_QUIESCING_FLOWS (input : Input) : Stmt :=
  match input with
  | INPUT_QUIESCE => fun q => invalid_input input (_state q) q
  | INPUT_FLOWS_GONE =>
      set_state STATE_QUIESCING_CONNS ;> quiesce_connections
  | INPUT_CONNS_GONE => skip
  | INPUT_UNQUIESCE =>
      set_state STATE_ACTIVE ;> unquiesce_untrusted_interface
  end.

Definition case_STATE_QUIESCING_CONNS (input : Input) : Stmt :=
  match input with
  | INPUT_QUIESCE => fun q => invalid_input input (_state q) q
  | INPUT_FLOWS_GONE => skip
  | INPUT_CONNS_GONE => set_state STATE_QUIESCED ;> quiesce_complete
  | INPUT_UNQUIESCE =>
      set_state STATE_ACTIVE ;>
      unquiesce_connections ;> unquiesce_untrusted_interface
  end.

Definition case_STATE_QUIESCED (input : Input) : Stmt :=
  match input with
  | INPUT_QUIESCE | INPUT_UNQUIESCE => skip
  | INPUT_FLOWS_GONE | INPUT_CONNS_GONE =>
      fun q => invalid_input input (_state q) q
  end.

(** The outer [switch (_state)].  The [case STATE_ACTIVE:] block has no
    [break] after its inner switch, so control continues with the
    statements of [case STATE_QUIESCING_FLOWS:]; the other three blocks
    end in [break]. *)
Definition process_input (input : Input) : Stmt := fun q =>
  match _state q with
  | STATE_ACTIVE =>
      (case_STATE_ACTIVE input ;> case_STATE_QUIESCING_FLOWS input) q
  | STATE_QUIESCING_FLOWS => case_STATE_QUIESCING_FLOWS input q
  | STATE_QUIESCING_CONNS => case_STATE_QUIESCING_CONNS input q
  | STATE_QUIESCED => case_STATE_QUIESCED input q
  end.

End Build.

(** [invalid_input] was entered during the call. *)
Definition reached_invalid_input (o : Outcome) : Prop :=
  exists i s, In (Call_invalid_input i s) (events (final o)).

(** The events of an [INPUT_QUIESCE] delivered in [STATE_ACTIVE]. *)
Definition quiesce_in_active_events (ndebug edge_proxy : bool) : list Event :=
  [Call_quiesce_untrusted_interface]
    ++ (if edge_proxy then [] else [Call_flows_gone])
    ++ [Call_invalid_input INPUT_QUIESCE STATE_QUIESCING_FLOWS]
    ++ (if ndebug then [] else [Assert_false]).

End QuiescingManager.

(* ===================================================================== *)
(** * sprout/authentication.cpp *)
(* ===================================================================== *)

Module Authentication.

(** ** PJLIB strings *)

(** [pj_tolower] on one character. *)
Definition pj_tolower (c : ascii) : ascii :=
  let n := nat_of_ascii c in
  if (Nat.leb 65 n && Nat.leb n 90)%bool then ascii_of_nat (n + 32) else c.

Fixpoint lower (s : string) : string :=
  match s with
  | EmptyString => EmptyString
  | String c s' => String (pj_tolower c) (lower s')
  end.

(** [pj_stricmp]: zero exactly when the two strings have the same length
    and agree character by character up to case; otherwise the sign of
    the first difference. *)
Definition pj_stricmp (a b : string) : Z :=
  match String.compare (lower a) (lower b) with
  | Eq => 0
  | Lt => -1
  | Gt => 1
  end.

(** [std::string::length() != 0], [pj_str_t::slen != 0]. *)
Definition nonempty (s : string) : bool :=
  negb (Nat.eqb (String.length s) 0).

(** ** PJSIP message structures *)

Record pjsip_param := mkParam {
  name : string;
  value : string
}.

(** [pjsip_param_find]: the first parameter of the list whose name is
    the given one up to case. *)
Definition pjsip_param_find (l : list pjsip_param) (n : string)
  : option pjsip_param :=
  List.find (fun p => Z.eqb (pj_stricmp (name p) n) 0) l.

Record pjsip_digest_credential := mkDigestCred {
  realm : string;
  username : string;
  nonce : string;
  uri : string;
  response : string;
  algorithm : string;
  cnonce : string;
  opaque : string;
  qop : string;
  nc : string;
  other_param : list pjsip_param
}.

Record pjsip_authorization_hdr := mkAuthHdr {
  scheme : string;
  credential : pjsip_digest_credential
}.

Inductive pjsip_method_e :=
| PJSIP_INVITE_METHOD
| PJSIP_CANCEL_METHOD
| PJSIP_ACK_METHOD
| PJSIP_BYE_METHOD
| PJSIP_REGISTER_METHOD
| PJSIP_OPTIONS_METHOD
| PJSIP_OTHER_METHOD.

Definition method_eqb (a b : pjsip_method_e) : bool :=
  match a, b with
  | PJSIP_INVITE_METHOD, PJSIP_INVITE_METHOD
  | PJSIP_CANCEL_METHOD, PJSIP_CANCEL_METHOD
  | PJSIP_ACK_METHOD, PJSIP_ACK_METHOD
  | PJSIP_BYE_METHOD, PJSIP_BYE_METHOD
  | PJSIP_REGISTER_METHOD, PJSIP_REGISTER_METHOD
  | PJSIP_OPTIONS_METHOD, PJSIP_OPTIONS_METHOD
  | PJSIP_OTHER_METHOD, PJSIP_OTHER_METHOD => true
  | _, _ => false
  end.

Record pjsip_uri := mkUri {
  uri_scheme : string;
  uri_user : string;
  uri_host : string
}.

(** A received request, as the module reads it: the method, the
    [Authorization] headers in message order, the URI of the [To]
    header (always there: the transport layer discards a message without
    one before any module runs), and the optional [msg_info.from] and
    [msg_info.cid]. *)
Record pjsip_rx_data := mkRx {
  method : pjsip_method_e;
  authorization_hdrs : list pjsip_authorization_hdr;
  to_uri : pjsip_uri;
  msg_info_from : option pjsip_uri;
  msg_info_cid : option string
}.

(** [pjsip_msg_find_hdr(msg, PJSIP_H_AUTHORIZATION, NULL)]: the first
    [Authorization] header, [NULL] when there is none. *)
Definition pjsip_msg_find_hdr (rdata : pjsip_rx_data)
  : option pjsip_authorization_hdr :=
  List.head (authorization_hdrs rdata).

Record pjsip_digest_challenge := mkChallenge {
  ch_realm : string;
  ch_algorithm : string;
  ch_nonce : string;
  ch_opaque : string;
  ch_qop : string;
  ch_stale : bool;
  ch_other_param : list pjsip_param
}.

Record pjsip_www_authenticate_hdr := mkWwwAuth {
  www_scheme : string;
  challenge : pjsip_digest_challenge
}.

(** A response under construction: its status code and the
    [WWW-Authenticate] headers added so far. *)
Record pjsip_tx_data := mkTx {
  status_code : Z;
  www_authenticate_hdrs : list pjsip_www_authenticate_hdr
}.

Inductive pj_status_t :=
| PJ_SUCCESS
| PJSIP_EAUTHNOAUTH
| PJSIP_EAUTHACCNOTFOUND
| PJSIP_EINVALIDAUTHSCHEME
| PJSIP_EAUTHINVALIDDIGEST
| PJ_ENOMEM.

Definition status_eqb (a b : pj_status_t) : bool :=
  match a, b with
  | PJ_SUCCESS, PJ_SUCCESS
  | PJSIP_EAUTHNOAUTH, PJSIP_EAUTHNOAUTH
  | PJSIP_EAUTHACCNOTFOUND, PJSIP_EAUTHACCNOTFOUND
  | PJSIP_EINVALIDAUTHSCHEME, PJSIP_EINVALIDAUTHSCHEME
  | PJSIP_EAUTHINVALIDDIGEST, PJSIP_EAUTHINVALIDDIGEST
  | PJ_ENOMEM, PJ_ENOMEM => true
  | _, _ => false
  end.

Definition pj_bool_t := bool.
Definition PJ_TRUE : pj_bool_t := true.
Definition PJ_FALSE : pj_bool_t := false.

Definition PJSIP_SC_OK : Z := 200.
Definition PJSIP_SC_UNAUTHORIZED : Z := 401.
Definition PJSIP_SC_FORBIDDEN : Z := 403.
Definition PJSIP_SC_INTERNAL_SERVER_ERROR : Z := 500.

Inductive pjsip_cred_data_type :=
| PJSIP_CRED_DATA_PLAIN_PASSWD
| PJSIP_CRED_DATA_DIGEST.

Record pjsip_cred_info := mkCred {
  ci_realm : string;
  ci_scheme : string;
  ci_username : string;
  ci_data_type : pjsip_cred_data_type;
  ci_data : string
}.

Record pjsip_auth_lookup_cred_param := mkLookup {
  lk_realm : string;
  lk_acc_name : string;
  lk_rdata : pjsip_rx_data
}.

(** ** Authentication vectors *)

(** The JSON document returned by the HSS and kept in the AV store, as
    far as the module reads it: an optional member ["aka"] with string
    members [challenge], [response], [cryptkey], [integritykey], and an
    optional member ["digest"] with string members [realm], [qop],
    [ha1].  [isMember] is the test for [Some]. *)
Record aka_av := mkAka {
  aka_challenge : string;
  aka_response : string;
  aka_cryptkey : string;
  aka_integritykey : string
}.

Record digest_av := mkDigest {
  digest_realm : string;
  digest_qop : string;
  digest_ha1 : string
}.

Record Json_av := mkAv {
  av_aka : option aka_av;
  av_digest : option digest_av
}.

(** ** The world outside the module *)

Inductive marker_id :=
| MARKER_ID_START
| MARKER_ID_CALLING_DN
| MARKER_ID_CALLED_DN
| MARKER_ID_SIP_CALL_ID
| MARKER_ID_END.

(** The calls the module makes on its collaborators, in the order they
    are made. *)
Inductive Event :=
| HSS_get_auth_vector (impi impu autn : string)
| AvStore_get_av (impi nonce : string)
| AvStore_set_av (impi nonce : string) (av : Json_av)
| SAS_report_marker (id : marker_id) (param : option string)
| Respond_stateless (code : Z)
| Send_response (tdata : pjsip_tx_data)
| Analytics_auth_failure (impi : string) (to : pjsip_uri).

(** The static [av_store], the number of random strings drawn so far,
    and the trace of collaborator calls. *)
Record World := mkWorld {
  av_store : gmap (string * string) Json_av;
  random_calls : nat;
  trace : list Event
}.

(** What authentication.cpp takes from files that are not part of this
    development: the string constants of constants.h that the
    specification does not spell out, the realm the authentication
    server was initialised with, the answers of the HSS, the random
    string generator, PJSIP's digest comparison [pjsip_auth_verify], the
    status of [PJUtils::create_response], and whether an analytics
    logger is installed. *)
Record Platform := mkPlatform {
  STR_INTEGRITY_PROTECTED : string;
  STR_YES : string;
  STR_TLS_YES : string;
  STR_IP_ASSOC_YES : string;
  STR_AUTN : string;
  auth_srv_realm : string;
  hss_answer : string -> string -> string -> option Json_av;
  random_string : nat -> string;
  pjsip_auth_verify :
    pjsip_authorization_hdr -> pjsip_method_e -> pjsip_cred_info -> pj_status_t;
  create_response_status : pjsip_rx_data -> Z -> pj_status_t;
  analytics : bool
}.

(** Modelled from the spec: the constants of constants.h that section 6
    names, with the values it gives them. *)
Definition STR_DIGEST : string := "Digest".
Definition STR_MD5 : string := "MD5".
Definition STR_AKAV1_MD5 : string := "AKAv1-MD5".
Definition STR_AUTH : string := "auth".
Definition STR_CK : string := "ck".
Definition STR_IK : string := "ik".

(** ** A state monad with abort

    A result [None] is a run that leaves the source's defined behaviour
    (a null pointer dereferenced, a JSON member read that is not
    there); the world is the one reached when that happens. *)
Definition M (A : Type) : Type := World -> option A * World.

Definition ret {A} (a : A) : M A := fun w => (Some a, w).

Definition bind {A B} (m : M A) (k : A -> M B) : M B := fun w =>
  match m w with
  | (Some a, w') => k a w'
  | (None, w') => (None, w')
  end.

Definition abort {A} : M A := fun w => (None, w).

Notation "'let*' x := m 'in' k" := (bind m (fun x => k))
  (at level 10, x name, m at level 100, k at level 200).
Notation "'do*' m 'in' k" := (bind m (fun _ => k))
  (at level 10, m at level 100, k at level 200).

Definition emit (e : Event) : M unit := fun w =>
  (Some tt, mkWorld (av_store w) (random_calls w) (trace w ++ [e])).

(** Modelled from the spec: [AvStore] (avstore.h and avstore.cpp are not
    part of this development), section 4.4: a cache addressed by
    (private identity, nonce); [get] is a non-consuming read that hands
    the caller its own copy, [put] writes the entry. *)
Definition get_av (impi nonce : string) : M (option Json_av) := fun w =>
  (Some (av_store w !! (impi, nonce)),
   mkWorld (av_store w) (random_calls w)
           (trace w ++ [AvStore_get_av impi nonce])).

Definition set_av (impi nonce : string) (av : Json_av) : M unit := fun w =>
  (Some tt,
   mkWorld (<[(impi, nonce) := av]> (av_store w)) (random_calls w)
           (trace w ++ [AvStore_set_av impi nonce av])).

(** Modelled from the spec: [PJUtils::public_id_from_uri] and
    [PJUtils::default_private_id_from_uri] (pjutils.cpp is not part of
    this development).  The public identity is the address of record
    written as a URI; the default private identity is the public
    identity with the scheme prefix stripped (section 4.3, step 1). *)
Definition uri_to_string (u : pjsip_uri) : string :=
  uri_scheme u ++ ":" ++
  (if nonempty (uri_user u) then uri_user u ++ "@" ++ uri_host u
   else uri_host u).

Definition public_id_from_uri (u : pjsip_uri) : string := uri_to_string u.

(** Everything after the first colon; the whole string when it has
    none. *)
Fixpoint after_colon (s : string) : option string :=
  match s with
  | EmptyString => None
  | String c s' => if Ascii.eqb c ":" then Some s' else after_colon s'
  end.

Definition strip_scheme_prefix (s : string) : string :=
  match after_colon s with
  | Some rest => rest
  | None => s
  end.

Definition default_private_id_from_uri (u : pjsip_uri) : string :=
  strip_scheme_prefix (public_id_from_uri u).

Section Module_auth.

Variable P : Platform.

(** [hss->get_auth_vector(impi, impu, autn, trail)] *)
Definition get_auth_vector (impi impu autn : string) : M (option Json_av) :=
  do* emit (HSS_get_auth_vector impi impu autn) in
  ret (hss_answer P impi impu autn).

(** [pj_create_random_string(buf, sizeof(buf))]: returns the new
    contents of [buf]. *)
Definition pj_create_random_string : M string := fun w =>
  (Some (random_string P (random_calls w)),
   mkWorld (av_store w) (S (random_calls w)) (trace w)).

Definition respond_stateless (code : Z) : M unit :=
  emit (Respond_stateless code).

Definition pjsip_endpt_send_response2 (tdata : pjsip_tx_data) : M unit :=
  emit (Send_response tdata).

(** [PJUtils::create_response(endpt, rdata, sc, NULL, &tdata)]: a
    response with status [sc] and no challenge yet, or an error. *)
Definition create_response (rdata : pjsip_rx_data) (sc : Z)
  : pj_status_t * pjsip_tx_data :=
  (create_response_status P rdata sc, mkTx sc []).

(** *** [user_lookup] *)
Definition user_lookup (param : pjsip_auth_lookup_cred_param)
           (cred_info : pjsip_cred_info)
  : M (pj_status_t * pjsip_cred_info) :=
  let acc_name := lk_acc_name param in
  let realm := lk_realm param in
  let rdata := lk_rdata param in
  let impi := acc_name in
  match pjsip_msg_find_hdr rdata with
  | None => abort
  | Some auth_hdr =>
      let nonce := nonce (credential auth_hdr) in
      let* av := get_av impi nonce in
      match av with
      | Some av =>
          let ci := mkCred realm "digest" acc_name
                           (ci_data_type cred_info) (ci_data cred_info) in
          match av_aka av with
          | Some aka =>
              ret (PJ_SUCCESS,
                   mkCred (ci_realm ci) (ci_scheme ci) (ci_username ci)
                          PJSIP_CRED_DATA_PLAIN_PASSWD (aka_response aka))
          | None =>
              match av_digest av with
              | Some digest =>
                  ret (PJ_SUCCESS,
                       mkCred (ci_realm ci) (ci_scheme ci) (ci_username ci)
                              PJSIP_CRED_DATA_DIGEST (digest_ha1 digest))
              | None => ret (PJSIP_EAUTHACCNOTFOUND, ci)
              end
          end
      | None => ret (PJSIP_EAUTHACCNOTFOUND, cred_info)
      end
  end.

(** PJSIP's own scheme name, [pjsip_DIGEST_STR]. *)
Definition pjsip_DIGEST_STR : string := "digest".

(** *** [pjsip_auth_srv_verify]

    The PJSIP server-side verification that [init_authentication]
    configures with [lookup2 = user_lookup]: pick the [Authorization]
    header for the server's realm, check its scheme, ask the lookup
    callback for the credential of the header's user name, compare the
    digest.  It returns the status and the SIP status code it stores
    through its last argument. *)
Definition pjsip_auth_srv_verify (rdata : pjsip_rx_data)
  : M (pj_status_t * Z) :=
  match List.find
          (fun h => Z.eqb (pj_stricmp (realm (credential h))
                                      (auth_srv_realm P)) 0)
          (authorization_hdrs rdata) with
  | None => ret (PJSIP_EAUTHNOAUTH, PJSIP_SC_UNAUTHORIZED)
  | Some h_auth =>
      if Z.eqb (pj_stricmp (scheme h_auth) pjsip_DIGEST_STR) 0 then
        let* r := user_lookup
                    (mkLookup (auth_srv_realm P)
                              (username (credential h_auth)) rdata)
                    (mkCred "" pjsip_DIGEST_STR "" PJSIP_CRED_DATA_PLAIN_PASSWD "") in
        let '(status, cred_info) := r in
        if status_eqb status PJ_SUCCESS then
          let status := pjsip_auth_verify P h_auth (method rdata) cred_info in
          if status_eqb status PJ_SUCCESS
          then ret (status, PJSIP_SC_OK)
          else ret (status, PJSIP_SC_FORBIDDEN)
        else ret (status, PJSIP_SC_FORBIDDEN)
      else ret (PJSIP_EINVALIDAUTHSCHEME, PJSIP_SC_UNAUTHORIZED)
  end.

(** *** [create_challenge] *)

(** The loop over [auth_hdr->credential.digest.other_param]: every
    parameter is visited, and each one whose name is [STR_AUTN] up to
    case overwrites [autn]. *)
Fixpoint scan_autn (ps : list pjsip_param) (autn : string) : string :=
  match ps with
  | [] => autn
  | p :: ps' =>
      scan_autn ps'
        (if Z.eqb (pj_stricmp (name p) (STR_AUTN P)) 0 then value p
         else autn)
  end.

(** The header [pjsip_www_authenticate_hdr_create] returns. *)
Definition pjsip_www_authenticate_hdr_create : pjsip_www_authenticate_hdr :=
  mkWwwAuth "" (mkChallenge "" "" "" "" "" false []).

(** [pjsip_msg_add_hdr(tdata->msg, hdr)] *)
Definition pjsip_msg_add_hdr (tdata : pjsip_tx_data)
           (hdr : pjsip_www_authenticate_hdr) : pjsip_tx_data :=
  mkTx (status_code tdata) (www_authenticate_hdrs tdata ++ [hdr]).

(** The private identity chosen at the top of [create_challenge]. *)
Definition challenge_impi (auth_hdr : option pjsip_authorization_hdr)
           (rdata : pjsip_rx_data) : string :=
  match auth_hdr with
  | Some h =>
      if nonempty (username (credential h))
      then username (credential h)
      else default_private_id_from_uri (to_uri rdata)
  | None => default_private_id_from_uri (to_uri rdata)
  end.

(** The resync parameter read from the header, empty without one. *)
Definition challenge_autn (auth_hdr : option pjsip_authorization_hdr)
  : string :=
  match auth_hdr with
  | Some h => scan_autn (other_param (credential h)) ""
  | None => ""
  end.

(** Returns [tdata] as the function leaves it. *)
Definition create_challenge (auth_hdr : option pjsip_authorization_hdr)
           (rdata : pjsip_rx_data) (tdata : pjsip_tx_data)
  : M pjsip_tx_data :=
  let impu := public_id_from_uri (to_uri rdata) in
  let impi := challenge_impi auth_hdr rdata in
  let autn := challenge_autn auth_hdr in
  let* av := get_auth_vector impi impu autn in
  match av with
  | Some av =>
      let hdr := pjsip_www_authenticate_hdr_create in
      let realm := auth_srv_realm P in
      match av_aka av with
      | Some aka =>
          let nonce := aka_challenge aka in
          let* random := pj_create_random_string in
          let ck_param := mkParam STR_CK (aka_cryptkey aka) in
          let ik_param := mkParam STR_IK (aka_integritykey aka) in
          let hdr :=
            mkWwwAuth STR_DIGEST
              (mkChallenge realm STR_AKAV1_MD5 nonce random STR_AUTH false
                 ((ch_other_param (challenge hdr) ++ [ck_param])
                    ++ [ik_param])) in
          let tdata := pjsip_msg_add_hdr tdata hdr in
          do* set_av impi nonce av in
          ret tdata
      | None =>
          let* random := pj_create_random_string in
          let nonce := random in
          let hdr_nonce := random in
          let* random := pj_create_random_string in
          match av_digest av with
          | Some digest =>
              let hdr :=
                mkWwwAuth STR_DIGEST
                  (mkChallenge realm STR_MD5 hdr_nonce random
                     (digest_qop digest) false
                     (ch_other_param (challenge hdr))) in
              let tdata := pjsip_msg_add_hdr tdata hdr in
              do* set_av impi nonce av in
              ret tdata
          | None => abort
          end
      end
  | None =>
      ret (mkTx PJSIP_SC_FORBIDDEN (www_authenticate_hdrs tdata))
  end.

(** *** [authenticate_rx_request] *)

(** The test on the [integrity-protected] parameter. *)
Definition integrity_protected (auth_hdr : option pjsip_authorization_hdr)
  : bool :=
  match auth_hdr with
  | Some h =>
      match pjsip_param_find (other_param (credential h))
                             (STR_INTEGRITY_PROTECTED P) with
      | Some integrity =>
          Z.eqb (pj_stricmp (value integrity) (STR_YES P)) 0
          || Z.eqb (pj_stricmp (value integrity) (STR_TLS_YES P)) 0
          || Z.eqb (pj_stricmp (value integrity) (STR_IP_ASSOC_YES P)) 0
      | None => false
      end
  | None => false
  end.

(** The SAS markers reported for a request the module absorbs. *)
Definition report_markers (rdata : pjsip_rx_data) : M unit :=
  do* emit (SAS_report_marker MARKER_ID_START None) in
  do* match msg_info_from rdata with
      | Some calling_uri =>
          emit (SAS_report_marker MARKER_ID_CALLING_DN
                                  (Some (uri_user calling_uri)))
      | None => ret tt
      end in
  do* emit (SAS_report_marker MARKER_ID_CALLED_DN
                              (Some (uri_user (to_uri rdata)))) in
  do* match msg_info_cid rdata with
      | Some id => emit (SAS_report_marker MARKER_ID_SIP_CALL_ID (Some id))
      | None => ret tt
      end in
  emit (SAS_report_marker MARKER_ID_END None).

(** The last [if]/[else if] chain of the function, entered with the
    [status] and [sc] left by the verification step. *)
Definition reject_or_challenge (auth_hdr : option pjsip_authorization_hdr)
           (rdata : pjsip_rx_data) (status : pj_status_t) (sc : Z)
  : M pj_bool_t :=
  if method_eqb (method rdata) PJSIP_ACK_METHOD then
    ret PJ_TRUE
  else if method_eqb (method rdata) PJSIP_CANCEL_METHOD then
    do* respond_stateless PJSIP_SC_FORBIDDEN in
    ret PJ_TRUE
  else if status_eqb status PJSIP_EAUTHNOAUTH then
    let '(status, tdata) := create_response rdata sc in
    if negb (status_eqb status PJ_SUCCESS) then
      do* respond_stateless PJSIP_SC_INTERNAL_SERVER_ERROR in
      ret PJ_TRUE
    else
      let* tdata := create_challenge auth_hdr rdata tdata in
      do* pjsip_endpt_send_response2 tdata in
      ret PJ_TRUE
  else
    do* (if analytics P then
           match auth_hdr with
           | Some h =>
               emit (Analytics_auth_failure (username (credential h))
                                            (to_uri rdata))
           | None => abort
           end
         else ret tt) in
    do* respond_stateless sc in
    ret PJ_TRUE.

Definition authenticate_rx_request (rdata : pjsip_rx_data) : M pj_bool_t :=
  if negb (method_eqb (method rdata) PJSIP_REGISTER_METHOD) then
    ret PJ_FALSE
  else
    let auth_hdr := pjsip_msg_find_hdr rdata in
    if integrity_protected auth_hdr then
      ret PJ_FALSE
    else
      let sc := PJSIP_SC_UNAUTHORIZED in
      let status := PJSIP_EAUTHNOAUTH in
      let* r :=
        match auth_hdr with
        | Some h =>
            if nonempty (response (credential h))
            then pjsip_auth_srv_verify rdata
            else ret (status, sc)
        | None => ret (status, sc)
        end in
      let '(status, sc) := r in
      if status_eqb status PJ_SUCCESS then
        ret PJ_FALSE
      else
        do* report_markers rdata in
        reject_or_challenge auth_hdr rdata status sc.

End Module_auth.

(** ** A sample deployment

    Concrete values on which the functions above can be run. *)

Definition sample_aka : Json_av :=
  mkAv (Some (mkAka "abc123" "res-1" "ck-1" "ik-1")) None.

Definition sample_digest : Json_av :=
  mkAv None
       (Some (mkDigest "example.com" "auth"
                       "d41d8cd98f00b204e9800998ecf8427e")).

(** The HSS knows alice (AKA) and bob (Digest).  The digest comparison
    of this deployment accepts a response equal to the stored
    credential. *)
Definition sample_platform : Platform :=
  {| STR_INTEGRITY_PROTECTED := "integrity-protected";
     STR_YES := "yes";
     STR_TLS_YES := "tls-yes";
     STR_IP_ASSOC_YES := "ip-assoc-yes";
     STR_AUTN := "autn";
     auth_srv_realm := "example.com";
     hss_answer := fun impi _ _ =>
       if String.eqb impi "alice@example.com" then Some sample_aka
       else if String.eqb impi "bob@example.com" then Some sample_digest
       else None;
     random_string := fun n =>
       match n with
       | O => "0123456789abcdef"
       | _ => "fedcba9876543210"
       end;
     pjsip_auth_verify := fun h _ ci =>
       if String.eqb (response (credential h)) (ci_data ci)
       then PJ_SUCCESS else PJSIP_EAUTHINVALIDDIGEST;
     create_response_status := fun _ _ => PJ_SUCCESS;
     analytics := true |}.

Definition empty_world : World := mkWorld ∅ 0 [].

Definition sample_credential (user nonce response : string)
           (params : list pjsip_param) : pjsip_authorization_hdr :=
  mkAuthHdr "Digest"
    (mkDigestCred "example.com" user nonce "sip:example.com" response
                  "" "" "" "" "" params).

Definition sample_request (m : pjsip_method_e) (user : string)
           (hdrs : list pjsip_authorization_hdr) : pjsip_rx_data :=
  mkRx m hdrs (mkUri "sip" user "example.com")
       (Some (mkUri "sip" user "example.com")) (Some "call-1").

(** An unauthenticated REGISTER for alice, the world after the module
    has challenged it, and the REGISTER that answers the challenge. *)
Definition sample_register (hdrs : list pjsip_authorization_hdr)
  : pjsip_rx_data :=
  sample_request PJSIP_REGISTER_METHOD "alice" hdrs.

Definition challenged_world : World :=
  snd (authenticate_rx_request sample_platform (sample_register [])
                               empty_world).

Definition sample_answer : pjsip_rx_data :=
  sample_register [sample_credential "alice@example.com" "abc123" "res-1" []].

(** A REGISTER that asks for a resynchronisation twice. *)
Definition resync_hdr : pjsip_authorization_hdr :=
  sample_credential "alice@example.com" "" ""
    [mkParam "autn" "FIRST"; mkParam "x" "1"; mkParam "AUTN" "SECOND"].

End Authentication.

(* ===================================================================== *)
(** * sprout/quiescing_manager.cpp: [SynchronizedFSM::send_input] *)
(* ===================================================================== *)

Module SynchronizedFSM.

Section FSM.

(** The members of the subclass. *)
Variable Sub : Type.

(** [process_input] is virtual.  It runs with [_lock] released, so it may
    call [send_input] itself; [_running] is set while it runs, and such a
    call only pushes its input.  A run is given by the subclass state it
    leaves and the inputs it sent, in the order sent; [None] is a run that
    does not return. *)
Variable process_input : Z -> Sub -> option (Sub * list Z).

Record t := mkFSM {
  _input_q : list Z;
  _running : bool;
  sub : Sub
}.

(** [while (!_input_q.empty())]: take the front input, process it.  The
    loop is bounded by [fuel] iterations; [None] is a loop that has not
    finished within them, or a [process_input] that did not return. *)
Fixpoint run_queue (fuel : nat) (fsm : t) : option t :=
  match fuel with
  | O => None
  | S fuel' =>
      match _input_q fsm with
      | [] => Some fsm
      | next_input :: q =>
          match process_input next_input (sub fsm) with
          | Some (s', sent) =>
              run_queue fuel' (mkFSM (q ++ sent) (_running fsm) s')
          | None => None
          end
      end
  end.

(** [send_input], as one thread runs it. *)
Definition send_input (fuel : nat) (input : Z) (fsm : t) : option t :=
  let q := (_input_q fsm ++ [input])%list in
  if negb (_running fsm) then
    match run_queue fuel (mkFSM q true (sub fsm)) with
    | Some fsm' => Some (mkFSM (_input_q fsm') false (sub fsm'))
    | None => None
    end
  else Some (mkFSM q (_running fsm) (sub fsm)).

End FSM.

Arguments mkFSM {Sub} _ _ _.
Arguments _input_q {Sub} _.
Arguments _running {Sub} _.
Arguments sub {Sub} _.

End SynchronizedFSM.

(* ===================================================================== *)
(** * sprout/quiescing_manager.cpp: reading the state machine *)
(* ===================================================================== *)

Module QuiescingManagerTable.
Import QuiescingManager.

Definition is_invalid_input (e : Event) : bool :=
  match e with
  | Call_invalid_input _ _ => true
  | _ => false
  end.

(** The pairs of state and input on which [process_input] enters
    [invalid_input]. *)
Definition invalid_pair (s : State) (i : Input) : bool :=
  match s, i with
  | STATE_ACTIVE, INPUT_QUIESCE
  | STATE_ACTIVE, INPUT_UNQUIESCE
  | STATE_QUIESCING_FLOWS, INPUT_QUIESCE
  | STATE_QUIESCING_CONNS, INPUT_QUIESCE
  | STATE_QUIESCED, INPUT_FLOWS_GONE
  | STATE_QUIESCED, INPUT_CONNS_GONE => true
  | _, _ => false
  end.

Definition is_returned (o : Outcome) : bool :=
  match o with
  | Returned _ => true
  | Aborted _ => false
  end.

End QuiescingManagerTable.

(* ===================================================================== *)
(** * sprout/authentication.cpp: reading the trace *)
(* ===================================================================== *)

Module AuthenticationTrace.
Import Authentication.

Definition is_response (e : Event) : bool :=
  match e with
  | Respond_stateless _ | Send_response _ => true
  | _ => false
  end.

Definition is_hss_query (e : Event) : bool :=
  match e with
  | HSS_get_auth_vector _ _ _ => true
  | _ => false
  end.

Definition is_store_write (e : Event) : bool :=
  match e with
  | AvStore_set_av _ _ _ => true
  | _ => false
  end.

Definition is_store_read (e : Event) : bool :=
  match e with
  | AvStore_get_av _ _ => true
  | _ => false
  end.

Definition count (f : Event -> bool) (l : list Event) : nat :=
  length (filter f l).

(** The markers of a request the module absorbs. *)
Definition marker_events (rdata : pjsip_rx_data) : list Event :=
  ([SAS_report_marker MARKER_ID_START None]
    ++ match msg_info_from rdata with
       | Some calling_uri =>
           [SAS_report_marker MARKER_ID_CALLING_DN (Some (uri_user calling_uri))]
       | None => []
       end
    ++ [SAS_report_marker MARKER_ID_CALLED_DN (Some (uri_user (to_uri rdata)))]
    ++ match msg_info_cid rdata with
       | Some id => [SAS_report_marker MARKER_ID_SIP_CALL_ID (Some id)]
       | None => []
       end
    ++ [SAS_report_marker MARKER_ID_END None])%list.

(** A world with more events. *)
Definition with_events (w : World) (new : list Event) : World :=
  mkWorld (av_store w) (random_calls w) (trace w ++ new)%list.

(** A request carries credentials to verify when its first
    [Authorization] header has a response. *)
Definition has_response (rdata : pjsip_rx_data) : bool :=
  match pjsip_msg_find_hdr rdata with
  | Some h => nonempty (response (credential h))
  | None => false
  end.

(** An event list without a response, an HSS query or a store write, and
    with at most one store read. *)
Definition quiet (l : list Event) : Prop :=
  count is_response l = 0
  /\ count is_hss_query l = 0
  /\ count is_store_write l = 0
  /\ count is_store_read l <= 1.

(** The credential [user_lookup] hands back for a stored vector: the AKA
    response as a plain password, else the Digest [ha1] as a digest;
    nothing for a vector with neither member. *)
Definition stored_secret (av : Json_av)
  : option (pjsip_cred_data_type * string) :=
  match av_aka av, av_digest av with
  | Some aka, _ => Some (PJSIP_CRED_DATA_PLAIN_PASSWD, aka_response aka)
  | None, Some digest => Some (PJSIP_CRED_DATA_DIGEST, digest_ha1 digest)
  | None, None => None
  end.

(** The challenge headers, field by field. *)
Definition aka_challenge_hdr (P : Platform) (aka : aka_av) (opaque : string)
  : pjsip_www_authenticate_hdr :=
  mkWwwAuth "Digest"
    (mkChallenge (auth_srv_realm P) "AKAv1-MD5" (aka_challenge aka) opaque
                 "auth" false
                 [mkParam "ck" (aka_cryptkey aka);
                  mkParam "ik" (aka_integritykey aka)]).

Definition digest_challenge_hdr (P : Platform) (digest : digest_av)
           (nonce opaque : string) : pjsip_www_authenticate_hdr :=
  mkWwwAuth "Digest"
    (mkChallenge (auth_srv_realm P) "MD5" nonce opaque (digest_qop digest)
                 false []).

(** The realm-matching header [pjsip_auth_srv_verify] verifies. *)
Definition verified_hdr (P : Platform) (rdata : pjsip_rx_data)
  : option pjsip_authorization_hdr :=
  find (fun h => Z.eqb (pj_stricmp (realm (credential h)) (auth_srv_realm P)) 0)
       (authorization_hdrs rdata).

#[local] Open Scope list_scope.

(** The shapes a run of [authenticate_rx_request] can have from the world
    [w]: passed on after the events [pre]; answered with a bare status;
    answered with 403 after an HSS query without result; challenged,
    with the vector stored; stopped after the HSS query. *)
Definition run_shape (P : Platform) (ah : option pjsip_authorization_hdr)
           (rdata : pjsip_rx_data) (w : World)
           (r : option pj_bool_t * World) (pre : list Event) : Prop :=
  let impi := challenge_impi ah rdata in
  let impu := public_id_from_uri (to_uri rdata) in
  let autn := challenge_autn P ah in
  let query := HSS_get_auth_vector impi impu autn in
  (fst r = Some PJ_FALSE /\ snd r = with_events w pre)
  \/ (exists code,
        fst r = Some PJ_TRUE
        /\ snd r = with_events w (pre ++ [Respond_stateless code]))
  \/ (hss_answer P impi impu autn = None
      /\ fst r = Some PJ_TRUE
      /\ snd r = with_events w
                   (pre ++ [query; Send_response (mkTx PJSIP_SC_FORBIDDEN [])]))
  \/ (exists n av tdata rc,
        hss_answer P impi impu autn = Some av
        /\ fst r = Some PJ_TRUE
        /\ snd r = mkWorld (<[(impi, n) := av]> (av_store w)) rc
                           (trace w ++ pre ++ [query; AvStore_set_av impi n av;
                                               Send_response tdata]))
  \/ (exists rc,
        fst r = None
        /\ snd r = mkWorld (av_store w) rc (trace w ++ pre ++ [query])).

#[local] Close Scope list_scope.

(** The sample deployment with a [create_response] that fails. *)
Definition failing_platform : Platform :=
  {| STR_INTEGRITY_PROTECTED := STR_INTEGRITY_PROTECTED sample_platform;
     STR_YES := STR_YES sample_platform;
     STR_TLS_YES := STR_TLS_YES sample_platform;
     STR_IP_ASSOC_YES := STR_IP_ASSOC_YES sample_platform;
     STR_AUTN := STR_AUTN sample_platform;
     auth_srv_realm := auth_srv_realm sample_platform;
     hss_answer := hss_answer sample_platform;
     random_string := random_string sample_platform;
     pjsip_auth_verify := pjsip_auth_verify sample_platform;
     create_response_status := fun _ _ => PJ_ENOMEM;
     analytics := analytics sample_platform |}.

(** The answer to alice's challenge with a wrong response. *)
Definition wrong_answer : pjsip_rx_data :=
  sample_register [sample_credential "alice@example.com" "abc123" "bad" []].

(** A REGISTER carrying a second [integrity-protected] parameter. *)
Definition two_flags_request : pjsip_rx_data :=
  sample_register
    [sample_credential "alice@example.com" "" ""
       [mkParam "integrity-protected" "no";
        mkParam "integrity-protected" "yes"]].

End AuthenticationTrace.

(* ===================================================================== *)
(** * Properties of include/mmfservice.h *)
(* ===================================================================== *)

Module MMFServiceProofs.
Import MMFService.

Lemma has_config_for_address_lookup (self : t) (address : string) :
  has_config_for_address self address
  = match _mmf_config self !! address with
    | Some _ => true
    | None => false
    end.
Proof.
  unfold has_config_for_address, map_count.
  destruct (_mmf_config self !! address); reflexivity.
Qed.

(** C10.  [apply_mmf_pre_as] and [apply_mmf_post_as] return for every
    service and every address, never throwing: the answer is the flag of
    the configured entry, and [false] for an address without an entry.
    The lookup that can throw agrees with the guard in front of it:
    [get_address_config] returns exactly where [has_config_for_address]
    is true. *)
Theorem apply_mmf_total (self : t) (address : string) :
  apply_mmf_pre_as self address
  = Return (match _mmf_config self !! address with
            | Some cfg => apply_pre_as cfg
            | None => false
            end)
  /\ apply_mmf_post_as self address
     = Return (match _mmf_config self !! address with
               | Some cfg => apply_post_as cfg
               | None => false
               end)
  /\ has_config_for_address self address
     = match get_address_config self address with
       | Return _ => true
       | Throw _ => false
       end.
Proof.
  unfold apply_mmf_pre_as, apply_mmf_post_as.
  rewrite has_config_for_address_lookup.
  unfold get_address_config, map_at.
  destruct (_mmf_config self !! address) as [cfg|]; cbn.
  - destruct (apply_pre_as cfg), (apply_post_as cfg); auto.
  - auto.
Qed.

End MMFServiceProofs.

(* ===================================================================== *)
(** * Properties of sprout/quiescing_manager.cpp *)
(* ===================================================================== *)

Module QuiescingManagerProofs.
Import QuiescingManager.

(** C9 (what the code does).  Delivering [INPUT_QUIESCE] in
    [STATE_ACTIVE] sets the state to quiescing-flows and calls
    [quiesce_untrusted_interface], but then, for want of a [break],
    runs the [STATE_QUIESCING_FLOWS] block, which calls [invalid_input]:
    the call dies in [assert(false)], or with [NDEBUG] returns after
    having entered [invalid_input]. *)
Theorem process_input_quiesce_in_active (ndebug edge_proxy : bool)
        (evs : list Event) :
  process_input ndebug INPUT_QUIESCE (mkQM STATE_ACTIVE edge_proxy evs)
  = (if ndebug then Returned else Aborted)
      (mkQM STATE_QUIESCING_FLOWS edge_proxy
            (evs ++ quiesce_in_active_events ndebug edge_proxy))
  /\ reached_invalid_input
       (process_input ndebug INPUT_QUIESCE (mkQM STATE_ACTIVE edge_proxy evs)).
Proof.
  assert (E : process_input ndebug INPUT_QUIESCE (mkQM STATE_ACTIVE edge_proxy evs)
              = (if ndebug then Returned else Aborted)
                  (mkQM STATE_QUIESCING_FLOWS edge_proxy
                        (evs ++ quiesce_in_active_events ndebug edge_proxy))).
  { destruct ndebug, edge_proxy; cbn; rewrite <- ?app_assoc; reflexivity. }
  split; [exact E|].
  rewrite E. exists INPUT_QUIESCE, STATE_QUIESCING_FLOWS.
  destruct ndebug, edge_proxy; cbn; rewrite in_app_iff; right; cbn; auto.
Qed.

(** The other three states handle the same input inside their own
    block. *)
Lemma process_input_break (ndebug : bool) (input : Input) (q : QM) :
  _state q <> STATE_ACTIVE ->
  process_input ndebug input q
  = match _state q with
    | STATE_ACTIVE => Returned q
    | STATE_QUIESCING_FLOWS => case_STATE_QUIESCING_FLOWS ndebug input q
    | STATE_QUIESCING_CONNS => case_STATE_QUIESCING_CONNS ndebug input q
    | STATE_QUIESCED => case_STATE_QUIESCED ndebug input q
    end.
Proof.
  unfold process_input. destruct (_state q); congruence.
Qed.

End QuiescingManagerProofs.

(* ===================================================================== *)
(** * Properties of sprout/authentication.cpp *)
(* ===================================================================== *)

Module AuthenticationProofs.
Import Authentication.
#[local] Open Scope list_scope.

(** ** Case-insensitive comparison *)

Lemma string_compare_refl (s : string) : String.compare s s = Eq.
Proof.
  induction s as [|c s IH]; cbn; [reflexivity|].
  unfold Ascii.compare. rewrite N.compare_refl. exact IH.
Qed.

Lemma pj_stricmp_zero (a b : string) :
  pj_stricmp a b = 0%Z <-> lower a = lower b.
Proof.
  unfold pj_stricmp. split.
  - destruct (String.compare (lower a) (lower b)) eqn:E; try discriminate.
    intros _. now apply String.compare_eq_iff.
  - intros ->. now rewrite string_compare_refl.
Qed.

Lemma pj_stricmp_eqb (a b : string) :
  Z.eqb (pj_stricmp a b) 0 = true <-> lower a = lower b.
Proof. rewrite Z.eqb_eq. apply pj_stricmp_zero. Qed.

Lemma pj_stricmp_neqb (a b : string) :
  Z.eqb (pj_stricmp a b) 0 = false <-> lower a <> lower b.
Proof. rewrite Z.eqb_neq. now rewrite pj_stricmp_zero. Qed.

(** [pjsip_param_find] returns the first parameter with the name. *)
Lemma pjsip_param_find_first (pre post : list pjsip_param)
      (p : pjsip_param) (n : string) :
  List.Forall (fun q => lower (name q) <> lower n) pre ->
  lower (name p) = lower n ->
  pjsip_param_find (pre ++ p :: post)%list n = Some p.
Proof.
  unfold pjsip_param_find. intros Hpre Hp.
  induction Hpre as [|q pre Hq _ IH]; cbn.
  - apply pj_stricmp_eqb in Hp. now rewrite Hp.
  - apply pj_stricmp_neqb in Hq. now rewrite Hq.
Qed.

Section Module_auth_proofs.

Variable P : Platform.

(** ** The method guard and the integrity-protection bypass *)

Lemma non_register_passes (rdata : pjsip_rx_data) (w : World) :
  method rdata <> PJSIP_REGISTER_METHOD ->
  authenticate_rx_request P rdata w = (Some PJ_FALSE, w).
Proof.
  intros H. unfold authenticate_rx_request.
  destruct (method rdata); try congruence; reflexivity.
Qed.

(** C5 (as amended).  A request whose credential header (the first
    [Authorization] header) carries the integrity-protected flag (the
    first extension parameter of that name, compared without regard to
    case; a later parameter of that name is not looked at) with one
    of the three trusted values (again without regard to case) is
    passed through, and the world is left as it was: no call to the
    HSS, no access to the AV store, no response and no challenge. *)
Theorem integrity_protected_bypass (rdata : pjsip_rx_data)
        (h : pjsip_authorization_hdr) (pre post : list pjsip_param)
        (p : pjsip_param) (w : World) :
  pjsip_msg_find_hdr rdata = Some h ->
  other_param (credential h) = (pre ++ p :: post)%list ->
  List.Forall
    (fun q => lower (name q) <> lower (STR_INTEGRITY_PROTECTED P)) pre ->
  lower (name p) = lower (STR_INTEGRITY_PROTECTED P) ->
  lower (value p) = lower (STR_YES P)
  \/ lower (value p) = lower (STR_TLS_YES P)
  \/ lower (value p) = lower (STR_IP_ASSOC_YES P) ->
  authenticate_rx_request P rdata w = (Some PJ_FALSE, w).
Proof.
  intros Hh Hparams Hpre Hname Hvalue.
  unfold authenticate_rx_request.
  destruct (negb (method_eqb (method rdata) PJSIP_REGISTER_METHOD));
    [reflexivity|].
  rewrite Hh. unfold integrity_protected. rewrite Hparams.
  rewrite (pjsip_param_find_first pre post p _ Hpre Hname).
  assert (Hv : (Z.eqb (pj_stricmp (value p) (STR_YES P)) 0
                || Z.eqb (pj_stricmp (value p) (STR_TLS_YES P)) 0
                || Z.eqb (pj_stricmp (value p) (STR_IP_ASSOC_YES P)) 0)
               = true).
  { rewrite !orb_true_iff, !pj_stricmp_eqb. tauto. }
  rewrite Hv. reflexivity.
Qed.

(** ** ACK and CANCEL *)

(** C7 (as amended).  An ACK or a CANCEL is not a REGISTER, so the
    method guard passes it through untouched: no response, no
    challenge, the world as it was.  The two branches of the final
    stage that discard an ACK and reject a CANCEL with 403 do what
    their comments say for a request that gets there. *)
Theorem ack_cancel_pass_through (rdata : pjsip_rx_data) (w : World) :
  method rdata = PJSIP_ACK_METHOD \/ method rdata = PJSIP_CANCEL_METHOD ->
  authenticate_rx_request P rdata w = (Some PJ_FALSE, w)
  /\ forall auth_hdr status sc,
       reject_or_challenge P auth_hdr rdata status sc w
       = if method_eqb (method rdata) PJSIP_ACK_METHOD
         then (Some PJ_TRUE, w)
         else (Some PJ_TRUE,
               mkWorld (av_store w) (random_calls w)
                       (trace w ++ [Respond_stateless PJSIP_SC_FORBIDDEN])).
Proof.
  intros H. split.
  - apply non_register_passes. destruct H as [-> | ->]; discriminate.
  - intros auth_hdr status sc. unfold reject_or_challenge.
    destruct H as [-> | ->]; reflexivity.
Qed.

(** ** Building a challenge *)

Ltac run_challenge :=
  unfold create_challenge, get_auth_vector, pj_create_random_string,
    set_av, pjsip_msg_add_hdr, bind, emit, ret, abort; cbn.

(** C6.  When the HSS has no authentication vector for the request,
    [create_challenge] sets the response status to 403 Forbidden, adds
    no challenge header and leaves the AV store alone: its one
    collaborator call is the HSS query.  The response the challenge
    path of [authenticate_rx_request] then sends is that 403 without a
    challenge header. *)
Theorem no_vector_forbidden (auth_hdr : option pjsip_authorization_hdr)
        (rdata : pjsip_rx_data) (tdata : pjsip_tx_data) (w : World) :
  let impi := challenge_impi auth_hdr rdata in
  let impu := public_id_from_uri (to_uri rdata) in
  let autn := challenge_autn P auth_hdr in
  let w' := mkWorld (av_store w) (random_calls w)
                    (trace w ++ [HSS_get_auth_vector impi impu autn]) in
  hss_answer P impi impu autn = None ->
  create_challenge P auth_hdr rdata tdata w
  = (Some (mkTx PJSIP_SC_FORBIDDEN (www_authenticate_hdrs tdata)), w')
  /\ forall sc,
       method rdata <> PJSIP_ACK_METHOD ->
       method rdata <> PJSIP_CANCEL_METHOD ->
       create_response_status P rdata sc = PJ_SUCCESS ->
       reject_or_challenge P auth_hdr rdata PJSIP_EAUTHNOAUTH sc w
       = (Some PJ_TRUE,
          mkWorld (av_store w) (random_calls w)
                  (trace w ++ [HSS_get_auth_vector impi impu autn;
                               Send_response (mkTx PJSIP_SC_FORBIDDEN [])])).
Proof.
  intros impi impu autn w' Hhss.
  assert (E : forall td, create_challenge P auth_hdr rdata td w
              = (Some (mkTx PJSIP_SC_FORBIDDEN (www_authenticate_hdrs td)), w')).
  { intros td. run_challenge. fold impi impu autn. rewrite Hhss. reflexivity. }
  split; [apply E|].
  intros sc Hack Hcancel Hresp. unfold reject_or_challenge.
  destruct (method rdata) eqn:Hm; try congruence; cbn;
    unfold create_response; rewrite Hresp; cbn;
    unfold bind; rewrite E; cbn; rewrite <- app_assoc; reflexivity.
Qed.

(** C3.  For an AKA vector the nonce of the challenge header added to
    the response is the vector's own challenge, whatever the random
    generator returns; the random string goes into [opaque]. *)
Theorem aka_nonce_is_challenge (auth_hdr : option pjsip_authorization_hdr)
        (rdata : pjsip_rx_data) (tdata : pjsip_tx_data) (w : World)
        (av : Json_av) (aka : aka_av) :
  hss_answer P (challenge_impi auth_hdr rdata)
             (public_id_from_uri (to_uri rdata))
             (challenge_autn P auth_hdr) = Some av ->
  av_aka av = Some aka ->
  exists hdr,
    fst (create_challenge P auth_hdr rdata tdata w)
    = Some (mkTx (status_code tdata) (www_authenticate_hdrs tdata ++ [hdr]))
    /\ ch_nonce (challenge hdr) = aka_challenge aka
    /\ ch_algorithm (challenge hdr) = STR_AKAV1_MD5
    /\ ch_opaque (challenge hdr) = random_string P (random_calls w).
Proof.
  intros Hhss Haka. run_challenge. rewrite Hhss, Haka. cbn.
  eexists. split; [reflexivity|]. cbn. auto.
Qed.

(** C4.  When the HSS returns a vector with an [aka] or a [digest]
    member, [create_challenge] completes, having added one challenge
    header and made one insertion into the AV store, its only store
    call: the entry is keyed by the private identity and the nonce of
    that header, which is the vector's challenge for AKA and the first
    random string drawn in the call for Digest. *)
Theorem challenge_stored_under_nonce
        (auth_hdr : option pjsip_authorization_hdr)
        (rdata : pjsip_rx_data) (tdata : pjsip_tx_data)
        (w : World) (av : Json_av) :
  let impi := challenge_impi auth_hdr rdata in
  let impu := public_id_from_uri (to_uri rdata) in
  let autn := challenge_autn P auth_hdr in
  hss_answer P impi impu autn = Some av ->
  av_aka av <> None \/ av_digest av <> None ->
  exists hdr rc,
    create_challenge P auth_hdr rdata tdata w
    = (Some (pjsip_msg_add_hdr tdata hdr),
       mkWorld (<[(impi, ch_nonce (challenge hdr)) := av]> (av_store w)) rc
               (trace w ++ [HSS_get_auth_vector impi impu autn;
                            AvStore_set_av impi (ch_nonce (challenge hdr)) av]))
    /\ ch_nonce (challenge hdr)
       = match av_aka av with
         | Some aka => aka_challenge aka
         | None => random_string P (random_calls w)
         end.
Proof.
  intros impi impu autn Hhss Hwf. run_challenge.
  fold impi impu autn. rewrite Hhss.
  destruct (av_aka av) as [aka|]; cbn.
  - eexists (mkWwwAuth _ (mkChallenge _ _ _ _ _ _ _)), _.
    rewrite <- app_assoc. cbn. split; reflexivity.
  - destruct (av_digest av) as [digest|]; cbn.
    + eexists (mkWwwAuth _ (mkChallenge _ _ _ _ _ _ _)), _.
      rewrite <- app_assoc. cbn. split; reflexivity.
    + destruct Hwf as [H | H]; now destruct H.
Qed.

(** A run on a vector of the HSS completes only when the vector has one
    of the two members, and otherwise stores nothing. *)
Lemma challenge_needs_member
      (auth_hdr : option pjsip_authorization_hdr)
      (rdata : pjsip_rx_data) (tdata : pjsip_tx_data)
      (w : World) (av : Json_av) :
  hss_answer P (challenge_impi auth_hdr rdata)
             (public_id_from_uri (to_uri rdata))
             (challenge_autn P auth_hdr) = Some av ->
  av_aka av = None ->
  av_digest av = None ->
  fst (create_challenge P auth_hdr rdata tdata w) = None
  /\ av_store (snd (create_challenge P auth_hdr rdata tdata w)) = av_store w.
Proof.
  intros Hhss Haka Hdig. run_challenge. rewrite Hhss, Haka. cbn.
  rewrite Hdig. cbn. auto.
Qed.

(** ** The private identity and the resync token *)

Lemma create_challenge_trace (auth_hdr : option pjsip_authorization_hdr)
      (rdata : pjsip_rx_data) (tdata : pjsip_tx_data) (w : World) :
  let impi := challenge_impi auth_hdr rdata in
  let impu := public_id_from_uri (to_uri rdata) in
  let autn := challenge_autn P auth_hdr in
  exists rest,
    trace (snd (create_challenge P auth_hdr rdata tdata w))
    = trace w ++ HSS_get_auth_vector impi impu autn :: rest
    /\ (rest = [] \/ exists nonce av, rest = [AvStore_set_av impi nonce av]).
Proof.
  intros impi impu autn. run_challenge. fold impi impu autn.
  destruct (hss_answer P impi impu autn) as [av|]; cbn.
  - destruct (av_aka av) as [aka|]; cbn.
    + eexists. rewrite <- app_assoc. split; [reflexivity|]. right. eauto.
    + destruct (av_digest av) as [digest|]; cbn.
      * eexists. rewrite <- app_assoc. split; [reflexivity|]. right. eauto.
      * eexists. split; [reflexivity|]. left. reflexivity.
  - eexists. split; [reflexivity|]. left. reflexivity.
Qed.

(** C8.  The private identity [create_challenge] hands to the HSS, and
    under which it files the vector, is the user name of the
    credential header when the request has one and the user name is
    not empty, and otherwise the public identity with its scheme
    prefix stripped. *)
Theorem private_identity_choice
        (auth_hdr : option pjsip_authorization_hdr)
        (rdata : pjsip_rx_data) (tdata : pjsip_tx_data) (w : World) :
  let impu := public_id_from_uri (to_uri rdata) in
  let impi :=
    match auth_hdr with
    | Some h =>
        if Nat.eqb (String.length (username (credential h))) 0
        then strip_scheme_prefix impu
        else username (credential h)
    | None => strip_scheme_prefix impu
    end in
  exists autn rest,
    trace (snd (create_challenge P auth_hdr rdata tdata w))
    = trace w ++ HSS_get_auth_vector impi impu autn :: rest
    /\ (rest = [] \/ exists nonce av, rest = [AvStore_set_av impi nonce av]).
Proof.
  intros impu impi.
  destruct (create_challenge_trace auth_hdr rdata tdata w) as [rest H].
  assert (E : challenge_impi auth_hdr rdata = impi).
  { unfold challenge_impi, impi, default_private_id_from_uri, nonempty.
    destruct auth_hdr as [h|]; [|reflexivity].
    destruct (Nat.eqb (String.length (username (credential h))) 0);
      reflexivity. }
  rewrite E in H. exists (challenge_autn P auth_hdr), rest. exact H.
Qed.

Lemma scan_autn_app (l1 l2 : list pjsip_param) (autn : string) :
  scan_autn P (l1 ++ l2) autn = scan_autn P l2 (scan_autn P l1 autn).
Proof.
  revert autn. induction l1 as [|q l1 IH]; intros autn; cbn;
    [reflexivity | apply IH].
Qed.

Lemma scan_autn_no_match (l : list pjsip_param) (autn : string) :
  List.Forall (fun q => lower (name q) <> lower (STR_AUTN P)) l ->
  scan_autn P l autn = autn.
Proof.
  intros H. induction H as [|q l Hq _ IH]; cbn; [reflexivity|].
  apply pj_stricmp_neqb in Hq. rewrite Hq. exact IH.
Qed.

(** C2 (as amended).  The resync token handed to the HSS is the value,
    unchanged, of the last extension parameter of the credential
    header whose name is [STR_AUTN] up to case. *)
Theorem resync_token_last_match (h : pjsip_authorization_hdr)
        (pre post : list pjsip_param) (p : pjsip_param)
        (rdata : pjsip_rx_data) (tdata : pjsip_tx_data) (w : World) :
  other_param (credential h) = pre ++ p :: post ->
  lower (name p) = lower (STR_AUTN P) ->
  List.Forall (fun q => lower (name q) <> lower (STR_AUTN P)) post ->
  exists rest,
    trace (snd (create_challenge P (Some h) rdata tdata w))
    = trace w
        ++ HSS_get_auth_vector (challenge_impi (Some h) rdata)
                               (public_id_from_uri (to_uri rdata))
                               (value p) :: rest.
Proof.
  intros Hparams Hname Hpost.
  destruct (create_challenge_trace (Some h) rdata tdata w) as [rest [H _]].
  exists rest. rewrite H.
  replace (challenge_autn P (Some h)) with (value p); [reflexivity|].
  unfold challenge_autn. rewrite Hparams, scan_autn_app. cbn.
  apply pj_stricmp_eqb in Hname. rewrite Hname.
  symmetry. now apply scan_autn_no_match.
Qed.

(** Without a parameter of that name the token is empty. *)
Lemma resync_token_absent (h : pjsip_authorization_hdr) :
  List.Forall (fun q => lower (name q) <> lower (STR_AUTN P))
              (other_param (credential h)) ->
  challenge_autn P (Some h) = "".
Proof. intros H. unfold challenge_autn. now apply scan_autn_no_match. Qed.

(** ** Verifying a response *)

Ltac run_verify :=
  unfold pjsip_auth_srv_verify, user_lookup, get_av, bind, ret, abort; cbn.

Lemma verify_keeps_store (rdata : pjsip_rx_data) (w : World) :
  av_store (snd (pjsip_auth_srv_verify P rdata w)) = av_store w.
Proof.
  run_verify.
  destruct (find _ (authorization_hdrs rdata)) as [h_auth|]; [|reflexivity].
  destruct (Z.eqb (pj_stricmp (scheme h_auth) pjsip_DIGEST_STR) 0); [|reflexivity].
  destruct (pjsip_msg_find_hdr rdata) as [first|]; [|reflexivity]. cbn.
  destruct (av_store w !! _) as [av|]; [|reflexivity].
  destruct (av_aka av) as [aka|]; cbn.
  - destruct (status_eqb _ PJ_SUCCESS); reflexivity.
  - destruct (av_digest av) as [digest|]; cbn; [|reflexivity].
    destruct (status_eqb _ PJ_SUCCESS); reflexivity.
Qed.



(** A verified response lets the REGISTER through, the store as it
    was. *)
Lemma verified_request_passes (rdata : pjsip_rx_data) (w : World)
      (h : pjsip_authorization_hdr) (sc : Z) :
  method rdata = PJSIP_REGISTER_METHOD ->
  pjsip_msg_find_hdr rdata = Some h ->
  integrity_protected P (Some h) = false ->
  nonempty (response (credential h)) = true ->
  fst (pjsip_auth_srv_verify P rdata w) = Some (PJ_SUCCESS, sc) ->
  fst (authenticate_rx_request P rdata w) = Some PJ_FALSE
  /\ av_store (snd (authenticate_rx_request P rdata w)) = av_store w.
Proof.
  intros Hm Hh Hip Hresp Hok.
  pose proof (verify_keeps_store rdata w) as Hstore.
  unfold authenticate_rx_request. rewrite Hm, Hh, Hip, Hresp. cbn.
  unfold bind. destruct (pjsip_auth_srv_verify P rdata w) as [r w'].
  cbn in Hok, Hstore. subst r. cbn. auto.
Qed.

End Module_auth_proofs.

(** ** The sample deployment *)

(** Stripping the scheme prefix undoes writing the URI out. *)
Lemma after_colon_app (scheme rest : string) :
  after_colon scheme = None ->
  after_colon (scheme ++ ":" ++ rest)%string = Some rest.
Proof.
  induction scheme as [|c scheme IH]; simpl; [reflexivity|].
  destruct (Ascii.eqb c ":"); [discriminate | exact IH].
Qed.

Lemma default_private_id_sip (user host : string) :
  default_private_id_from_uri (mkUri "sip" user host)
  = if nonempty user then (user ++ "@" ++ host)%string else host.
Proof.
  unfold default_private_id_from_uri, public_id_from_uri, uri_to_string,
    strip_scheme_prefix. cbn [uri_scheme uri_user uri_host].
  now rewrite after_colon_app.
Qed.

(** C6, for carol, whom the HSS of the sample deployment does not
    know. *)
Lemma no_vector_forbidden_witness :
  fst (create_challenge sample_platform None
         (sample_request PJSIP_REGISTER_METHOD "carol" [])
         (mkTx PJSIP_SC_UNAUTHORIZED []) empty_world)
  = Some (mkTx PJSIP_SC_FORBIDDEN []).
Proof.
  destruct (no_vector_forbidden sample_platform None
              (sample_request PJSIP_REGISTER_METHOD "carol" [])
              (mkTx PJSIP_SC_UNAUTHORIZED []) empty_world) as [H _].
  - reflexivity.
  - rewrite H. reflexivity.
Defined.

(** C3, for alice, whose vector carries the challenge [abc123]. *)
Lemma aka_nonce_is_challenge_witness :
  exists hdr,
    fst (create_challenge sample_platform None (sample_register [])
           (mkTx PJSIP_SC_UNAUTHORIZED []) empty_world)
    = Some (mkTx PJSIP_SC_UNAUTHORIZED ([] ++ [hdr]))
    /\ ch_nonce (challenge hdr) = "abc123"
    /\ ch_algorithm (challenge hdr) = STR_AKAV1_MD5
    /\ ch_opaque (challenge hdr) = "0123456789abcdef".
Proof.
  apply (aka_nonce_is_challenge sample_platform None (sample_register [])
           (mkTx PJSIP_SC_UNAUTHORIZED []) empty_world sample_aka
           (mkAka "abc123" "res-1" "ck-1" "ik-1")).
  - reflexivity.
  - reflexivity.
Defined.

(** C4, for alice, whose vector is an AKA one and is filed under its
    challenge, and for bob, whose vector is a Digest one and is filed
    under the first random string of the call. *)
Lemma challenge_stored_under_nonce_witness :
  (exists hdr rc,
     create_challenge sample_platform None (sample_register [])
                      (mkTx PJSIP_SC_UNAUTHORIZED []) empty_world
     = (Some (pjsip_msg_add_hdr (mkTx PJSIP_SC_UNAUTHORIZED []) hdr),
        mkWorld (<[("alice@example.com", ch_nonce (challenge hdr))
                   := sample_aka]> ∅) rc
                [HSS_get_auth_vector "alice@example.com"
                                     "sip:alice@example.com" "";
                 AvStore_set_av "alice@example.com" (ch_nonce (challenge hdr))
                                sample_aka])
     /\ ch_nonce (challenge hdr) = "abc123")
  /\ (exists hdr rc,
        create_challenge sample_platform None
                         (sample_request PJSIP_REGISTER_METHOD "bob" [])
                         (mkTx PJSIP_SC_UNAUTHORIZED []) empty_world
        = (Some (pjsip_msg_add_hdr (mkTx PJSIP_SC_UNAUTHORIZED []) hdr),
           mkWorld (<[("bob@example.com", ch_nonce (challenge hdr))
                      := sample_digest]> ∅) rc
                   [HSS_get_auth_vector "bob@example.com"
                                        "sip:bob@example.com" "";
                    AvStore_set_av "bob@example.com" (ch_nonce (challenge hdr))
                                   sample_digest])
        /\ ch_nonce (challenge hdr) = "0123456789abcdef").
Proof.
  split.
  - apply (challenge_stored_under_nonce sample_platform None
             (sample_register []) (mkTx PJSIP_SC_UNAUTHORIZED [])
             empty_world sample_aka).
    + reflexivity.
    + left. discriminate.
  - apply (challenge_stored_under_nonce sample_platform None
             (sample_request PJSIP_REGISTER_METHOD "bob" [])
             (mkTx PJSIP_SC_UNAUTHORIZED []) empty_world sample_digest).
    + reflexivity.
    + right. discriminate.
Defined.

(** C5, on a REGISTER of the sample deployment marked [TLS-Yes]. *)
Lemma integrity_protected_bypass_witness :
  let h := sample_credential "alice@example.com" "" ""
             [mkParam "x" "1"; mkParam "Integrity-Protected" "TLS-Yes"] in
  authenticate_rx_request sample_platform
    (sample_request PJSIP_REGISTER_METHOD "alice" [h]) empty_world
  = (Some PJ_FALSE, empty_world).
Proof.
  intros h.
  apply (integrity_protected_bypass sample_platform
           (sample_request PJSIP_REGISTER_METHOD "alice" [h]) h
           [mkParam "x" "1"] [] (mkParam "Integrity-Protected" "TLS-Yes")
           empty_world).
  - reflexivity.
  - reflexivity.
  - repeat constructor. cbn. discriminate.
  - reflexivity.
  - right. left. reflexivity.
Defined.

(** C7 as amended, on an ACK of the sample deployment. *)
Lemma ack_cancel_pass_through_witness :
  authenticate_rx_request sample_platform
    (sample_request PJSIP_ACK_METHOD "alice" []) empty_world
  = (Some PJ_FALSE, empty_world).
Proof.
  apply (ack_cancel_pass_through sample_platform
           (sample_request PJSIP_ACK_METHOD "alice" []) empty_world).
  left. reflexivity.
Defined.

(** C7 as stated fails: an unauthenticated ACK is not absorbed (the
    function returns [PJ_FALSE], handing the request to the modules
    after it), and an unauthenticated CANCEL gets no 403: nothing is
    sent at all. *)
Lemma ack_cancel_not_dropped_or_rejected :
  fst (authenticate_rx_request sample_platform
         (sample_request PJSIP_ACK_METHOD "alice" []) empty_world)
  <> Some PJ_TRUE
  /\ ~ In (Respond_stateless PJSIP_SC_FORBIDDEN)
         (trace (snd (authenticate_rx_request sample_platform
                        (sample_request PJSIP_CANCEL_METHOD "alice" [])
                        empty_world))).
Proof.
  split.
  - cbn. discriminate.
  - cbn. tauto.
Qed.

(** C2 as amended, on the REGISTER that carries [autn] twice: the HSS
    gets the value of the last one. *)
Lemma resync_token_last_match_witness :
  exists rest,
    trace (snd (create_challenge sample_platform (Some resync_hdr)
                  (sample_register [resync_hdr])
                  (mkTx PJSIP_SC_UNAUTHORIZED []) empty_world))
    = HSS_get_auth_vector "alice@example.com" "sip:alice@example.com"
                          "SECOND" :: rest.
Proof.
  apply (resync_token_last_match sample_platform resync_hdr
           [mkParam "autn" "FIRST"; mkParam "x" "1"] []
           (mkParam "AUTN" "SECOND")
           (sample_register [resync_hdr])
           (mkTx PJSIP_SC_UNAUTHORIZED []) empty_world).
  - reflexivity.
  - reflexivity.
  - constructor.
Defined.

(** C2 as stated fails: the first parameter named [autn] carries
    [FIRST], and the HSS is asked with [SECOND]. *)
Lemma resync_first_match_does_not_win :
  value <$> pjsip_param_find (other_param (credential resync_hdr))
                             (STR_AUTN sample_platform)
  = Some "FIRST"
  /\ trace (snd (create_challenge sample_platform (Some resync_hdr)
                   (sample_register [resync_hdr])
                   (mkTx PJSIP_SC_UNAUTHORIZED []) empty_world))
     = [HSS_get_auth_vector "alice@example.com" "sip:alice@example.com"
                            "SECOND";
        AvStore_set_av "alice@example.com" "abc123" sample_aka]
  /\ "SECOND" <> "FIRST".
Proof.
  split; [reflexivity|]. split; [reflexivity|]. discriminate.
Qed.

(** Where [STR_AUTN] is [autn], as in the sample deployment, a
    parameter named [auts] is not the resync token. *)
Lemma auts_parameter_not_forwarded :
  challenge_autn sample_platform
    (Some (sample_credential "alice@example.com" "" ""
                             [mkParam "auts" "XYZ"]))
  = "".
Proof. reflexivity. Qed.



(** ** The sample deployment end to end *)

(** The challenge of a Digest subscriber: nonce and opaque are the two
    random strings, in the order drawn. *)
Example digest_challenge_sample :
  fst (create_challenge sample_platform None
         (sample_request PJSIP_REGISTER_METHOD "bob" [])
         (mkTx PJSIP_SC_UNAUTHORIZED []) empty_world)
  = Some (mkTx PJSIP_SC_UNAUTHORIZED
            [mkWwwAuth "Digest"
               (mkChallenge "example.com" "MD5" "0123456789abcdef"
                            "fedcba9876543210" "auth" false [])]).
Proof. reflexivity. Qed.

(** A wrong answer is refused with 403 and reported, and the entry
    stays in the store. *)
Example bad_credentials_sample :
  let bad := sample_register
               [sample_credential "alice@example.com" "abc123" "bad" []] in
  let r := authenticate_rx_request sample_platform bad challenged_world in
  fst r = Some PJ_TRUE
  /\ av_store (snd r) !! ("alice@example.com", "abc123") = Some sample_aka
  /\ skipn (length (trace challenged_world)) (trace (snd r))
     = [AvStore_get_av "alice@example.com" "abc123";
        SAS_report_marker MARKER_ID_START None;
        SAS_report_marker MARKER_ID_CALLING_DN (Some "alice");
        SAS_report_marker MARKER_ID_CALLED_DN (Some "alice");
        SAS_report_marker MARKER_ID_SIP_CALL_ID (Some "call-1");
        SAS_report_marker MARKER_ID_END None;
        Analytics_auth_failure "alice@example.com"
                               (mkUri "sip" "alice" "example.com");
        Respond_stateless PJSIP_SC_FORBIDDEN].
Proof. cbv zeta. repeat split; vm_compute; reflexivity. Qed.

End AuthenticationProofs.

(* ===================================================================== *)
(** * Further properties of sprout/quiescing_manager.cpp *)
(* ===================================================================== *)

Module QuiescingManagerTableProofs.
Import QuiescingManager QuiescingManagerTable.
#[local] Open Scope list_scope.

Ltac run_fsm :=
  cbv -[app]; rewrite <- ?app_assoc; cbn.

(** X1.  A call of [process_input] only adds events, and among the events
    it adds there is a call of [invalid_input] exactly for six pairs of
    state and input: QUIESCE or UNQUIESCE when active, QUIESCE while
    quiescing flows or connections, FLOWS_GONE or CONNS_GONE when
    quiesced. *)
Theorem invalid_input_pairs (ndebug : bool) (input : Input) (s : State)
        (edge_proxy : bool) (evs : list Event) :
  exists new,
    events (final (process_input ndebug input (mkQM s edge_proxy evs)))
    = evs ++ new
    /\ existsb is_invalid_input new = invalid_pair s input.
Proof.
  destruct s, input, ndebug, edge_proxy; run_fsm;
    eexists; (split; [reflexivity | reflexivity]) ||
    (rewrite <- (app_nil_r evs) at 1; split; reflexivity).
Qed.

(** X2.  With assertions compiled in, [process_input] returns exactly on
    the other ten pairs; with [NDEBUG] it always returns. *)
Theorem process_input_returns (ndebug : bool) (input : Input) (q : QM) :
  is_returned (process_input ndebug input q)
  = ndebug || negb (invalid_pair (_state q) input).
Proof.
  destruct q as [s ep evs]. destruct s, input, ndebug, ep; reflexivity.
Qed.

(** X3.  The manager becomes quiesced in one way only: by CONNS_GONE
    while it is quiescing connections, and that call's one action is
    [quiesce_complete]. *)
Theorem quiesced_only_after_conns_gone (ndebug : bool) (input : Input)
        (q : QM) :
  _state q <> STATE_QUIESCED ->
  _state (final (process_input ndebug input q)) = STATE_QUIESCED ->
  _state q = STATE_QUIESCING_CONNS
  /\ input = INPUT_CONNS_GONE
  /\ process_input ndebug input q
     = Returned (mkQM STATE_QUIESCED (_edge_proxy q)
                      (events q ++ [Call_quiesce_complete])).
Proof.
  destruct q as [s ep evs]. cbn [_state _edge_proxy events].
  destruct s, input, ndebug, ep; cbn; intros Hs H;
    try discriminate; try congruence; auto.
Qed.

(** X4.  In the active state FLOWS_GONE is not ignored: the manager goes
    on to quiesce its connections and ends in the quiescing-connections
    state.  CONNS_GONE leaves an active manager as it is. *)
Theorem gone_inputs_in_active (ndebug edge_proxy : bool) (evs : list Event) :
  process_input ndebug INPUT_FLOWS_GONE (mkQM STATE_ACTIVE edge_proxy evs)
  = Returned (mkQM STATE_QUIESCING_CONNS edge_proxy
                   (evs ++ [Call_quiesce_connections; ConnTracker_quiesce]))
  /\ process_input ndebug INPUT_CONNS_GONE (mkQM STATE_ACTIVE edge_proxy evs)
     = Returned (mkQM STATE_ACTIVE edge_proxy evs).
Proof.
  split; run_fsm; reflexivity.
Qed.

(** X5.  A quiesced manager ignores QUIESCE and UNQUIESCE alike: it stays
    quiesced and does nothing. *)
Theorem quiesced_is_final (ndebug : bool) (input : Input) (q : QM) :
  _state q = STATE_QUIESCED ->
  input = INPUT_QUIESCE \/ input = INPUT_UNQUIESCE ->
  process_input ndebug input q = Returned q.
Proof.
  destruct q as [s ep evs]. cbn [_state]. intros -> [-> | ->]; reflexivity.
Qed.

(** X6.  UNQUIESCE while quiescing brings the manager back to the active
    state: from quiescing flows it reopens the untrusted interface, from
    quiescing connections it first unquiesces the connection tracker and
    then reopens the untrusted interface. *)
Theorem unquiesce_while_quiescing (ndebug edge_proxy : bool)
        (evs : list Event) :
  process_input ndebug INPUT_UNQUIESCE
                (mkQM STATE_QUIESCING_FLOWS edge_proxy evs)
  = Returned (mkQM STATE_ACTIVE edge_proxy
                   (evs ++ [Call_unquiesce_untrusted_interface]))
  /\ process_input ndebug INPUT_UNQUIESCE
                   (mkQM STATE_QUIESCING_CONNS edge_proxy evs)
     = Returned (mkQM STATE_ACTIVE edge_proxy
                      (evs ++ [Call_unquiesce_connections;
                               ConnTracker_unquiesce;
                               Call_unquiesce_untrusted_interface])).
Proof.
  split; run_fsm; reflexivity.
Qed.

(** X7.  Started while quiescing flows, FLOWS_GONE followed by CONNS_GONE
    completes the quiescing: the connection tracker is told to quiesce,
    then [quiesce_complete] runs, and neither call enters
    [invalid_input]. *)
Theorem quiescing_completes (ndebug edge_proxy : bool) (evs : list Event) :
  process_input ndebug INPUT_CONNS_GONE
    (final (process_input ndebug INPUT_FLOWS_GONE
              (mkQM STATE_QUIESCING_FLOWS edge_proxy evs)))
  = Returned (mkQM STATE_QUIESCED edge_proxy
                   (evs ++ [Call_quiesce_connections; ConnTracker_quiesce;
                            Call_quiesce_complete])).
Proof.
  run_fsm. reflexivity.
Qed.

(** X3, on a manager that is quiescing connections. *)
Lemma quiesced_only_after_conns_gone_witness :
  process_input false INPUT_CONNS_GONE (mkQM STATE_QUIESCING_CONNS true [])
  = Returned (mkQM STATE_QUIESCED true [Call_quiesce_complete]).
Proof.
  apply (quiesced_only_after_conns_gone false INPUT_CONNS_GONE
           (mkQM STATE_QUIESCING_CONNS true [])).
  - discriminate.
  - reflexivity.
Defined.

(** X5, on UNQUIESCE. *)
Lemma quiesced_is_final_witness :
  process_input false INPUT_UNQUIESCE (mkQM STATE_QUIESCED false [])
  = Returned (mkQM STATE_QUIESCED false []).
Proof.
  apply (quiesced_is_final false INPUT_UNQUIESCE (mkQM STATE_QUIESCED false [])).
  - reflexivity.
  - right. reflexivity.
Defined.

End QuiescingManagerTableProofs.

(* ===================================================================== *)
(** * Properties of [SynchronizedFSM::send_input] *)
(* ===================================================================== *)

Module SynchronizedFSMProofs.
Import SynchronizedFSM.
#[local] Open Scope list_scope.

Section FSM_proofs.

Variable Sub : Type.
Variable process_input : Z -> Sub -> option (Sub * list Z).

(** The loop leaves with an empty queue and does not touch
    [_running]. *)
Lemma run_queue_post (fuel : nat) (fsm fsm' : t Sub) :
  run_queue Sub process_input fuel fsm = Some fsm' ->
  _input_q fsm' = [] /\ _running fsm' = _running fsm.
Proof.
  revert fsm. induction fuel as [|fuel IH]; intros fsm; cbn; [discriminate|].
  destruct (_input_q fsm) as [|next q] eqn:Hq.
  - intros [= <-]. auto.
  - destruct (process_input next (sub fsm)) as [[s' sent]|]; [|discriminate].
    intros H. apply IH in H. exact H.
Qed.

(** X8.  A call of [send_input] made while the machine is running, as
    from inside [process_input], only puts its input at the back of the
    queue: nothing is processed and the machine is still running. *)
Theorem send_input_while_running (fuel : nat) (input : Z) (fsm : t Sub) :
  _running fsm = true ->
  send_input Sub process_input fuel input fsm
  = Some (mkFSM (_input_q fsm ++ [input]) true (sub fsm)).
Proof.
  intros H. unfold send_input. rewrite H. reflexivity.
Qed.

(** X9.  A call of [send_input] on an idle machine that returns leaves
    the queue empty and the machine idle again. *)
Theorem send_input_drains (fuel : nat) (input : Z) (fsm fsm' : t Sub) :
  _running fsm = false ->
  send_input Sub process_input fuel input fsm = Some fsm' ->
  _input_q fsm' = [] /\ _running fsm' = false.
Proof.
  intros H. unfold send_input. rewrite H. cbn.
  destruct (run_queue Sub process_input fuel _) as [r|] eqn:Hr; [|discriminate].
  intros [= <-]. cbn. apply run_queue_post in Hr. tauto.
Qed.

(** When no [process_input] sends an input itself, the loop is a fold
    over the queue, front first. *)
Lemma run_queue_fold (step : Z -> Sub -> Sub) :
  (forall i s, process_input i s = Some (step i s, [])) ->
  forall (q : list Z) (fuel : nat) (running : bool) (s : Sub),
    length q < fuel ->
    run_queue Sub process_input fuel (mkFSM q running s)
    = Some (mkFSM [] running (fold_left (fun s i => step i s) q s)).
Proof.
  intros Hstep q. induction q as [|i q IH]; intros fuel running s Hfuel;
    (destruct fuel as [|fuel]; [cbn in Hfuel; lia|]); cbn.
  - reflexivity.
  - rewrite Hstep, app_nil_r. apply IH. cbn in Hfuel. lia.
Qed.

(** X10.  When [process_input] sends no input of its own, a call of
    [send_input] on an idle machine processes what was left on the queue
    and then the new input, one at a time and in queue order, and
    returns; the loop takes one iteration per input. *)
Theorem send_input_in_order (step : Z -> Sub -> Sub) (fuel : nat)
        (input : Z) (fsm : t Sub) :
  (forall i s, process_input i s = Some (step i s, [])) ->
  _running fsm = false ->
  length (_input_q fsm) + 1 < fuel ->
  send_input Sub process_input fuel input fsm
  = Some (mkFSM [] false
            (fold_left (fun s i => step i s) (_input_q fsm ++ [input])
                       (sub fsm))).
Proof.
  intros Hstep Hrun Hfuel. unfold send_input. rewrite Hrun. cbn.
  rewrite (run_queue_fold step Hstep); [reflexivity|].
  rewrite length_app. cbn. lia.
Qed.

(** An input that [process_input] sends while it runs is processed
    within the same outer call of [send_input], after the inputs that
    were already waiting. *)
Lemma sent_input_processed_after_queue (fuel : nat) (next : Z)
        (q sent : list Z) (running : bool) (s s' : Sub) :
  process_input next s = Some (s', sent) ->
  run_queue Sub process_input (S fuel) (mkFSM (next :: q) running s)
  = run_queue Sub process_input fuel (mkFSM (q ++ sent) running s').
Proof.
  intros H. cbn. rewrite H. reflexivity.
Qed.

End FSM_proofs.

(** X8, on a counter that adds its inputs up. *)
Lemma send_input_while_running_witness :
  send_input Z (fun i s => Some ((s + i)%Z, [])) 0 7%Z (mkFSM [3%Z] true 0%Z)
  = Some (mkFSM [3%Z; 7%Z] true 0%Z).
Proof.
  apply (send_input_while_running Z (fun i s => Some ((s + i)%Z, [])) 0 7%Z
           (mkFSM [3%Z] true 0%Z)).
  reflexivity.
Defined.

(** X9, on the same counter. *)
Lemma send_input_drains_witness :
  _input_q (mkFSM ([] : list Z) false 10%Z) = []
  /\ _running (mkFSM ([] : list Z) false 10%Z) = false.
Proof.
  apply (send_input_drains Z (fun i s => Some ((s + i)%Z, [])) 3 7%Z
           (mkFSM [3%Z] false 0%Z) (mkFSM [] false 10%Z)).
  - reflexivity.
  - reflexivity.
Defined.

(** X10, on the same counter: 3 was waiting, 7 is sent. *)
Lemma send_input_in_order_witness :
  send_input Z (fun i s => Some ((s + i)%Z, [])) 3 7%Z (mkFSM [3%Z] false 0%Z)
  = Some (mkFSM [] false 10%Z).
Proof.
  apply (send_input_in_order Z (fun i s => Some ((s + i)%Z, []))
           (fun i s => (s + i)%Z) 3 7%Z (mkFSM [3%Z] false 0%Z)).
  - reflexivity.
  - reflexivity.
  - cbn. lia.
Defined.

End SynchronizedFSMProofs.

(* ===================================================================== *)
(** * Further properties of sprout/authentication.cpp *)
(* ===================================================================== *)

Module AuthenticationTraceProofs.
Import Authentication AuthenticationTrace.
#[local] Open Scope list_scope.

(** ** Worlds and counts *)

Lemma with_events_nil (w : World) : with_events w [] = w.
Proof. destruct w. unfold with_events. cbn. now rewrite app_nil_r. Qed.

Lemma with_events_app (w : World) (a b : list Event) :
  with_events (with_events w a) b = with_events w (a ++ b).
Proof. unfold with_events. cbn. now rewrite app_assoc. Qed.

Lemma count_app (f : Event -> bool) (a b : list Event) :
  count f (a ++ b) = count f a + count f b.
Proof.
  unfold count. induction a as [|e a IH]; cbn; [reflexivity|].
  destruct (f e); cbn; rewrite IH; reflexivity.
Qed.

Lemma quiet_nil : quiet [].
Proof. unfold quiet, count. cbn. lia. Qed.

Lemma quiet_markers (rdata : pjsip_rx_data) : quiet (marker_events rdata).
Proof.
  unfold quiet, count, marker_events.
  destruct (msg_info_from rdata), (msg_info_cid rdata); cbn; lia.
Qed.

Lemma quiet_app (a b : list Event) :
  quiet a -> quiet b -> count is_store_read a + count is_store_read b <= 1 ->
  quiet (a ++ b).
Proof.
  unfold quiet. rewrite !count_app. lia.
Qed.

Lemma report_markers_spec (rdata : pjsip_rx_data) (w : World) :
  report_markers rdata w = (Some tt, with_events w (marker_events rdata)).
Proof.
  unfold report_markers, marker_events, bind, emit, ret, with_events.
  destruct (msg_info_from rdata), (msg_info_cid rdata); cbn;
    rewrite <- ?app_assoc; reflexivity.
Qed.

Lemma find_some_head {A} (f : A -> bool) (l : list A) (x : A) :
  find f l = Some x -> exists y, head l = Some y.
Proof. destruct l as [|y l]; [discriminate | eauto]. Qed.

Section Module_auth_trace.

Variable P : Platform.

(** ** Verification *)

(** What a run of [pjsip_auth_srv_verify] can be: it returns, reads the
    store at most once and changes nothing else; it succeeds only on a
    stored vector whose secret the digest comparison accepted. *)
Lemma verify_cases (rdata : pjsip_rx_data) (w : World) :
  exists r reads,
    pjsip_auth_srv_verify P rdata w = (Some r, with_events w reads)
    /\ quiet reads
    /\ (fst r = PJ_SUCCESS ->
        exists h h_auth av ci,
          pjsip_msg_find_hdr rdata = Some h
          /\ verified_hdr P rdata = Some h_auth
          /\ av_store w !! (username (credential h_auth), nonce (credential h))
             = Some av
          /\ stored_secret av = Some (ci_data_type ci, ci_data ci)
          /\ pjsip_auth_verify P h_auth (method rdata) ci = PJ_SUCCESS).
Proof.
  unfold pjsip_auth_srv_verify, verified_hdr.
  destruct (find _ (authorization_hdrs rdata)) as [h_auth|] eqn:Hfind.
  2:{ exists (PJSIP_EAUTHNOAUTH, PJSIP_SC_UNAUTHORIZED), [].
      rewrite with_events_nil. split; [reflexivity|].
      split; [apply quiet_nil | discriminate]. }
  destruct (Z.eqb (pj_stricmp (scheme h_auth) pjsip_DIGEST_STR) 0).
  2:{ exists (PJSIP_EINVALIDAUTHSCHEME, PJSIP_SC_UNAUTHORIZED), [].
      rewrite with_events_nil. split; [reflexivity|].
      split; [apply quiet_nil | discriminate]. }
  destruct (find_some_head _ _ _ Hfind) as [h Hh].
  unfold user_lookup, get_av, bind, ret. cbn. unfold pjsip_msg_find_hdr in *.
  rewrite Hh. cbn.
  assert (Hq : quiet [AvStore_get_av (username (credential h_auth))
                                     (nonce (credential h))]).
  { unfold quiet, count. cbn. lia. }
  destruct (av_store w !! (username (credential h_auth), nonce (credential h)))
    as [av|] eqn:Hav.
  2:{ eexists (_, _), _. split; [reflexivity|]. split; [exact Hq|].
      cbn. discriminate. }
  destruct (av_aka av) as [aka|] eqn:Haka; cbn.
  - match goal with
    | |- context [pjsip_auth_verify P h_auth ?m ?c] =>
        destruct (pjsip_auth_verify P h_auth m c) eqn:Hv
    end; cbn; eexists (_, _), _; (split; [reflexivity|]); (split; [exact Hq|]);
      cbn; try discriminate.
    intros _. eexists h, h_auth, av, _. repeat split; eauto.
    unfold stored_secret. rewrite Haka. reflexivity.
  - destruct (av_digest av) as [digest|] eqn:Hdig; cbn.
    + match goal with
      | |- context [pjsip_auth_verify P h_auth ?m ?c] =>
          destruct (pjsip_auth_verify P h_auth m c) eqn:Hv
      end; cbn; eexists (_, _), _; (split; [reflexivity|]);
        (split; [exact Hq|]); cbn; try discriminate.
      intros _. eexists h, h_auth, av, _. repeat split; eauto.
      unfold stored_secret. rewrite Haka, Hdig. reflexivity.
    + eexists (_, _), _. split; [reflexivity|]. split; [exact Hq|].
      cbn. discriminate.
Qed.

(** ** The challenge *)

Lemma create_challenge_cases (auth_hdr : option pjsip_authorization_hdr)
      (rdata : pjsip_rx_data) (tdata : pjsip_tx_data) (w : World) :
  let impi := challenge_impi auth_hdr rdata in
  let impu := public_id_from_uri (to_uri rdata) in
  let autn := challenge_autn P auth_hdr in
  let query := HSS_get_auth_vector impi impu autn in
  let r := create_challenge P auth_hdr rdata tdata w in
  let rc := random_calls w in
  (hss_answer P impi impu autn = None
   /\ r = (Some (mkTx PJSIP_SC_FORBIDDEN (www_authenticate_hdrs tdata)),
           with_events w [query]))
  \/ (exists av aka,
        hss_answer P impi impu autn = Some av /\ av_aka av = Some aka
        /\ r = (Some (pjsip_msg_add_hdr tdata
                        (aka_challenge_hdr P aka (random_string P rc))),
                mkWorld (<[(impi, aka_challenge aka) := av]> (av_store w))
                        (S rc)
                        (trace w ++ [query;
                                     AvStore_set_av impi (aka_challenge aka) av])))
  \/ (exists av digest,
        hss_answer P impi impu autn = Some av /\ av_aka av = None
        /\ av_digest av = Some digest
        /\ r = (Some (pjsip_msg_add_hdr tdata
                        (digest_challenge_hdr P digest (random_string P rc)
                                              (random_string P (S rc)))),
                mkWorld (<[(impi, random_string P rc) := av]> (av_store w))
                        (S (S rc))
                        (trace w ++ [query;
                                     AvStore_set_av impi (random_string P rc) av])))
  \/ (exists av,
        hss_answer P impi impu autn = Some av /\ av_aka av = None
        /\ av_digest av = None
        /\ r = (None, mkWorld (av_store w) (S (S rc)) (trace w ++ [query]))).
Proof.
  intros impi impu autn query r rc. subst r.
  unfold create_challenge, get_auth_vector, pj_create_random_string, set_av,
    bind, emit, ret, abort. cbn. fold impi impu autn.
  destruct (hss_answer P impi impu autn) as [av|]; [|left; auto].
  right. destruct (av_aka av) as [aka|] eqn:Haka; cbn.
  - left. exists av, aka. rewrite <- app_assoc. auto.
  - right. destruct (av_digest av) as [digest|] eqn:Hdig; cbn.
    + left. exists av, digest. rewrite <- app_assoc. auto.
    + right. exists av. auto.
Qed.

(** ** The request as a whole *)

Lemma method_eqb_eq (a b : pjsip_method_e) : method_eqb a b = true <-> a = b.
Proof. destruct a, b; cbn; split; congruence. Qed.

Lemma status_eqb_eq (a b : pj_status_t) : status_eqb a b = true <-> a = b.
Proof. destruct a, b; cbn; split; congruence. Qed.

(** The final stage, for a REGISTER. *)
Lemma reject_register (ah : option pjsip_authorization_hdr)
      (rdata : pjsip_rx_data) (status : pj_status_t) (sc : Z) (w : World) :
  method rdata = PJSIP_REGISTER_METHOD ->
  reject_or_challenge P ah rdata status sc w
  = if status_eqb status PJSIP_EAUTHNOAUTH then
      if status_eqb (create_response_status P rdata sc) PJ_SUCCESS then
        match create_challenge P ah rdata (mkTx sc []) w with
        | (Some tdata, w') => (Some PJ_TRUE, with_events w' [Send_response tdata])
        | (None, w') => (None, w')
        end
      else
        (Some PJ_TRUE,
         with_events w [Respond_stateless PJSIP_SC_INTERNAL_SERVER_ERROR])
    else
      match ah with
      | Some h =>
          (Some PJ_TRUE,
           with_events w
             ((if analytics P
               then [Analytics_auth_failure (username (credential h))
                                            (to_uri rdata)]
               else []) ++ [Respond_stateless sc]))
      | None =>
          if analytics P then (None, w)
          else (Some PJ_TRUE, with_events w [Respond_stateless sc])
      end.
Proof.
  intros Hm. unfold reject_or_challenge. rewrite Hm. cbn -[create_challenge].
  destruct (status_eqb status PJSIP_EAUTHNOAUTH).
  - unfold create_response.
    destruct (status_eqb (create_response_status P rdata sc) PJ_SUCCESS);
      cbn -[create_challenge].
    + unfold bind, pjsip_endpt_send_response2.
      destruct (create_challenge P ah rdata (mkTx sc []) w) as [[td|] w'];
        reflexivity.
    + reflexivity.
  - unfold bind, respond_stateless, emit, ret, abort, with_events.
    destruct (analytics P), ah as [h|]; cbn; rewrite <- ?app_assoc; reflexivity.
Qed.

Lemma reject_cases (ah : option pjsip_authorization_hdr)
      (rdata : pjsip_rx_data) (status : pj_status_t) (sc : Z) (w : World)
      (pre0 : list Event) :
  method rdata = PJSIP_REGISTER_METHOD ->
  quiet pre0 ->
  (status_eqb status PJSIP_EAUTHNOAUTH = false -> ah <> None) ->
  exists pre,
    quiet pre
    /\ run_shape P ah rdata w
         (reject_or_challenge P ah rdata status sc (with_events w pre0)) pre.
Proof.
  intros Hm Hq Hah. rewrite (reject_register _ _ _ _ _ Hm). unfold run_shape.
  destruct (status_eqb status PJSIP_EAUTHNOAUTH).
  - destruct (status_eqb (create_response_status P rdata sc) PJ_SUCCESS).
    + exists pre0. split; [exact Hq|].
      destruct (create_challenge_cases ah rdata (mkTx sc []) (with_events w pre0))
        as [[Hh E] | [(av & aka & Hh & _ & E) | [(av & d & Hh & _ & _ & E)
                                               | (av & Hh & _ & _ & E)]]];
        cbv zeta in E; rewrite E; cbn.
      * right. right. left. rewrite !with_events_app. auto.
      * right. right. right. left. do 4 eexists.
        split; [exact Hh|]. split; [reflexivity|].
        unfold with_events. cbn. rewrite <- !app_assoc. reflexivity.
      * right. right. right. left. do 4 eexists.
        split; [exact Hh|]. split; [reflexivity|].
        unfold with_events. cbn. rewrite <- !app_assoc. reflexivity.
      * right. right. right. right. eexists. split; [reflexivity|].
        rewrite <- !app_assoc. reflexivity.
    + exists pre0. split; [exact Hq|]. right. left. eexists.
      rewrite with_events_app. auto.
  - destruct ah as [h|]; [|now destruct Hah].
    exists (pre0 ++ (if analytics P
                     then [Analytics_auth_failure (username (credential h))
                                                  (to_uri rdata)]
                     else [])).
    split.
    + apply quiet_app; [exact Hq | |].
      * unfold quiet, count. destruct (analytics P); cbn; lia.
      * destruct Hq as (_ & _ & _ & Hr). unfold count in *.
        destruct (analytics P); cbn; lia.
    + right. left. exists sc. rewrite with_events_app, <- app_assoc. auto.
Qed.

(** Every run of [authenticate_rx_request] has one of five shapes: the
    request is passed on; it is answered with a bare status; it is
    answered with 403 after the HSS had no vector; it is challenged after
    the HSS gave a vector, which is stored; or the vector lacks both
    members and the run stops after the HSS query. *)
Lemma authenticate_cases (rdata : pjsip_rx_data) (w : World) :
  exists pre,
    quiet pre
    /\ run_shape P (pjsip_msg_find_hdr rdata) rdata w
         (authenticate_rx_request P rdata w) pre.
Proof.
  unfold authenticate_rx_request.
  destruct (method_eqb (method rdata) PJSIP_REGISTER_METHOD) eqn:Hm; cbn.
  2:{ exists []. split; [apply quiet_nil|]. left. now rewrite with_events_nil. }
  apply method_eqb_eq in Hm.
  destruct (integrity_protected P (pjsip_msg_find_hdr rdata)).
  { exists []. split; [apply quiet_nil|]. left. now rewrite with_events_nil. }
  assert (Hno : forall w0,
             bind (ret (PJSIP_EAUTHNOAUTH, PJSIP_SC_UNAUTHORIZED))
                  (fun r => let '(status, sc) := r in
                            if status_eqb status PJ_SUCCESS then ret PJ_FALSE
                            else bind (report_markers rdata)
                                   (fun _ => reject_or_challenge P
                                        (pjsip_msg_find_hdr rdata) rdata status sc))
                  w0
             = reject_or_challenge P (pjsip_msg_find_hdr rdata) rdata
                 PJSIP_EAUTHNOAUTH PJSIP_SC_UNAUTHORIZED
                 (with_events w0 (marker_events rdata))).
  { intros w0. unfold bind at 1, ret at 1. cbn. unfold bind.
    now rewrite report_markers_spec. }
  destruct (pjsip_msg_find_hdr rdata) as [h|] eqn:Hh.
  2:{ rewrite Hno. apply reject_cases; auto using quiet_markers. }
  destruct (nonempty (response (credential h))).
  2:{ rewrite Hno. apply reject_cases; auto using quiet_markers. }
  destruct (verify_cases rdata w) as ([status sc] & reads & Hv & Hq & _).
  unfold bind at 1. rewrite Hv.
  destruct (status_eqb status PJ_SUCCESS); cbn.
  { exists reads. split; [exact Hq|]. left. auto. }
  unfold bind. rewrite report_markers_spec, with_events_app.
  apply reject_cases; [exact Hm | | discriminate].
  apply quiet_app; [exact Hq | apply quiet_markers |].
  destruct Hq as (_ & _ & _ & Hr).
  destruct (quiet_markers rdata) as (_ & _ & _ & Hr').
  assert (count is_store_read (marker_events rdata) = 0).
  { unfold count, marker_events.
    destruct (msg_info_from rdata), (msg_info_cid rdata); reflexivity. }
  lia.
Qed.

Lemma reject_never_passes (ah : option pjsip_authorization_hdr)
      (rdata : pjsip_rx_data) (status : pj_status_t) (sc : Z) (w : World) :
  method rdata = PJSIP_REGISTER_METHOD ->
  fst (reject_or_challenge P ah rdata status sc w) <> Some PJ_FALSE.
Proof.
  intros Hm. rewrite (reject_register _ _ _ _ _ Hm).
  destruct (status_eqb status PJSIP_EAUTHNOAUTH).
  - destruct (status_eqb (create_response_status P rdata sc) PJ_SUCCESS);
      [|discriminate].
    destruct (create_challenge P ah rdata (mkTx sc []) w) as [[td|] w'];
      discriminate.
  - destruct ah, (analytics P); discriminate.
Qed.

Lemma authenticate_unverified (rdata : pjsip_rx_data) (w : World) :
  method rdata = PJSIP_REGISTER_METHOD ->
  integrity_protected P (pjsip_msg_find_hdr rdata) = false ->
  has_response rdata = false ->
  authenticate_rx_request P rdata w
  = reject_or_challenge P (pjsip_msg_find_hdr rdata) rdata
      PJSIP_EAUTHNOAUTH PJSIP_SC_UNAUTHORIZED
      (with_events w (marker_events rdata)).
Proof.
  intros Hm Hip Hresp. unfold authenticate_rx_request, has_response in *.
  rewrite Hm, Hip. cbn -[reject_or_challenge].
  destruct (pjsip_msg_find_hdr rdata) as [h|]; [rewrite Hresp|];
    unfold bind at 1, ret at 1; cbn -[reject_or_challenge]; unfold bind;
    now rewrite report_markers_spec.
Qed.

Lemma authenticate_verified (rdata : pjsip_rx_data) (w : World) :
  method rdata = PJSIP_REGISTER_METHOD ->
  integrity_protected P (pjsip_msg_find_hdr rdata) = false ->
  has_response rdata = true ->
  authenticate_rx_request P rdata w
  = match pjsip_auth_srv_verify P rdata w with
    | (Some (status, sc), w1) =>
        if status_eqb status PJ_SUCCESS then (Some PJ_FALSE, w1)
        else reject_or_challenge P (pjsip_msg_find_hdr rdata) rdata status sc
               (with_events w1 (marker_events rdata))
    | (None, w1) => (None, w1)
    end.
Proof.
  intros Hm Hip Hresp. unfold authenticate_rx_request, has_response in *.
  rewrite Hm, Hip. cbn -[reject_or_challenge pjsip_auth_srv_verify].
  destruct (pjsip_msg_find_hdr rdata) as [h|]; [|discriminate].
  rewrite Hresp. unfold bind at 1.
  destruct (pjsip_auth_srv_verify P rdata w) as [[[status sc]|] w1];
    [|reflexivity].
  destruct (status_eqb status PJ_SUCCESS); [reflexivity|].
  unfold bind. now rewrite report_markers_spec.
Qed.

(** X11.  A REGISTER that is not integrity-protected is let through only
    when the store holds a vector under the user name of the verified
    header and the nonce of the first [Authorization] header, and the
    digest comparison accepted the response against that vector's secret
    (the AKA response, or the Digest [ha1]). *)
Theorem register_passes_only_verified (rdata : pjsip_rx_data) (w : World) :
  method rdata = PJSIP_REGISTER_METHOD ->
  integrity_protected P (pjsip_msg_find_hdr rdata) = false ->
  fst (authenticate_rx_request P rdata w) = Some PJ_FALSE ->
  exists h h_auth av ci,
    pjsip_msg_find_hdr rdata = Some h
    /\ nonempty (response (credential h)) = true
    /\ verified_hdr P rdata = Some h_auth
    /\ av_store w !! (username (credential h_auth), nonce (credential h))
       = Some av
    /\ stored_secret av = Some (ci_data_type ci, ci_data ci)
    /\ pjsip_auth_verify P h_auth (method rdata) ci = PJ_SUCCESS.
Proof.
  intros Hm Hip Hpass.
  destruct (has_response rdata) eqn:Hresp.
  - rewrite (authenticate_verified _ _ Hm Hip Hresp) in Hpass.
    destruct (verify_cases rdata w) as ([status sc] & reads & Hv & _ & Hok).
    rewrite Hv in Hpass.
    destruct (status_eqb status PJ_SUCCESS) eqn:Hs.
    + apply status_eqb_eq in Hs. cbn in Hok.
      destruct (Hok Hs) as (h & h_auth & av & ci & Hh & Hrest).
      exists h, h_auth, av, ci. split; [exact Hh|]. split; [|exact Hrest].
      unfold has_response in Hresp. now rewrite Hh in Hresp.
    + now apply reject_never_passes in Hpass.
  - rewrite (authenticate_unverified _ _ Hm Hip Hresp) in Hpass.
    now apply reject_never_passes in Hpass.
Qed.

(** X12.  A request that is let through has caused no response, no HSS
    query and no store write; the store and the random generator are as
    they were, and the store was read at most once. *)
Theorem passed_request_is_silent (rdata : pjsip_rx_data) (w : World) :
  fst (authenticate_rx_request P rdata w) = Some PJ_FALSE ->
  exists pre,
    snd (authenticate_rx_request P rdata w) = with_events w pre /\ quiet pre.
Proof.
  intros Hpass. destruct (authenticate_cases rdata w) as (pre & Hq & Hs).
  unfold run_shape in Hs. rewrite Hpass in Hs.
  destruct Hs as [[_ E] | [(c & [=] & _) | [(_ & [=] & _)
                 | [(n & av & td & rc & _ & [=] & _) | (rc & [=] & _)]]]].
  eauto.
Qed.

(** X13.  A request that is absorbed has been answered exactly once, and
    the response is the last thing the module does. *)
Theorem absorbed_request_one_response (rdata : pjsip_rx_data) (w : World) :
  fst (authenticate_rx_request P rdata w) = Some PJ_TRUE ->
  exists pre resp,
    trace (snd (authenticate_rx_request P rdata w)) = trace w ++ pre ++ [resp]
    /\ is_response resp = true
    /\ count is_response pre = 0.
Proof.
  intros Habs. destruct (authenticate_cases rdata w) as (pre & Hq & Hs).
  unfold run_shape in Hs. rewrite Habs in Hs.
  destruct Hq as (Hr & _).
  destruct Hs as [[[=] _] | [(c & _ & E) | [(_ & _ & E)
                 | [(n & av & td & rc & _ & _ & E) | (rc & [=] & _)]]]];
    rewrite E; cbn.
  - exists pre, (Respond_stateless c). auto.
  - eexists (pre ++ [_]), _. rewrite <- app_assoc. split; [reflexivity|].
    split; [reflexivity|]. rewrite count_app, Hr. reflexivity.
  - eexists (pre ++ [_; _]), _. rewrite <- app_assoc. split; [reflexivity|].
    split; [reflexivity|]. rewrite count_app, Hr. reflexivity.
Qed.

(** An event singled out of [pre ++ post] lies in [post] when [pre] has
    none of its kind. *)
Lemma split_after_prefix (f : Event -> bool) (pre post l1 l2 : list Event)
      (e : Event) :
  count f pre = 0 ->
  f e = true ->
  pre ++ post = l1 ++ e :: l2 ->
  exists l1', l1 = pre ++ l1' /\ post = l1' ++ e :: l2.
Proof.
  revert l1. induction pre as [|a pre IH]; intros l1 Hc He Heq.
  - exists l1. auto.
  - unfold count in Hc. cbn in Hc. destruct (f a) eqn:Hfa; [discriminate|].
    destruct l1 as [|b l1]; cbn in Heq; injection Heq as -> Heq.
    + congruence.
    + destruct (IH l1 Hc He Heq) as (l1' & -> & ->). exists l1'. auto.
Qed.

Lemma count_cons (f : Event -> bool) (e : Event) (l : list Event) :
  count f (e :: l) = (if f e then 1 else 0) + count f l.
Proof. unfold count. cbn. destruct (f e); reflexivity. Qed.

Lemma count_zero_no_member (f : Event -> bool) (l l1 l2 : list Event)
      (e : Event) :
  count f l = 0 -> f e = true -> l <> l1 ++ e :: l2.
Proof.
  intros Hc He ->. rewrite count_app, count_cons, He in Hc. lia.
Qed.

(** The events of one request: a part without HSS query and store write,
    then nothing more, or the one HSS query followed by events of which
    none is a query. *)
Lemma authenticate_order (rdata : pjsip_rx_data) (w : World) :
  exists pre post,
    trace (snd (authenticate_rx_request P rdata w)) = trace w ++ pre ++ post
    /\ quiet pre
    /\ count is_store_read post = 0
    /\ ((count is_hss_query post = 0 /\ count is_store_write post = 0)
        \/ exists q rest,
             post = q :: rest /\ is_hss_query q = true
             /\ count is_hss_query rest = 0
             /\ count is_store_write rest <= 1).
Proof.
  destruct (authenticate_cases rdata w) as (pre & Hq & Hs).
  unfold run_shape in Hs. exists pre.
  destruct Hs as [[_ E] | [(c & _ & E) | [(_ & _ & E)
                 | [(n & av & td & rc & _ & _ & E) | (rc & _ & E)]]]];
    rewrite E; cbn [trace with_events].
  - exists []. rewrite app_nil_r. split; [reflexivity|]. split; [exact Hq|].
    split; [reflexivity|]. left. split; reflexivity.
  - eexists. split; [reflexivity|]. split; [exact Hq|].
    split; [reflexivity|]. left. split; reflexivity.
  - eexists. split; [reflexivity|]. split; [exact Hq|].
    split; [reflexivity|]. right. do 2 eexists.
    split; [reflexivity|]. repeat split. unfold count. cbn. lia.
  - eexists. split; [reflexivity|]. split; [exact Hq|].
    split; [reflexivity|]. right. do 2 eexists.
    split; [reflexivity|]. repeat split. unfold count. cbn. lia.
  - eexists. split; [reflexivity|]. split; [exact Hq|].
    split; [reflexivity|]. right. do 2 eexists.
    split; [reflexivity|]. repeat split. unfold count. cbn. lia.
Qed.

(** X14.  One request costs at most one HSS query, at most one store read
    and at most one store write, and a write happens only after an HSS
    query: wherever a store write stands among the events of the
    request, the events before it contain the HSS query. *)
Theorem one_hss_query_at_most (rdata : pjsip_rx_data) (w : World) :
  exists new,
    trace (snd (authenticate_rx_request P rdata w)) = trace w ++ new
    /\ count is_store_write new <= count is_hss_query new
    /\ count is_hss_query new <= 1
    /\ count is_store_read new <= 1
    /\ forall l1 e l2,
         new = l1 ++ e :: l2 ->
         is_store_write e = true ->
         count is_hss_query l1 = 1.
Proof.
  destruct (authenticate_order rdata w)
    as (pre & post & E & (_ & Hh & Hw & Hr) & Hrp & Hpost).
  exists (pre ++ post). split; [exact E|].
  rewrite !count_app, Hh, Hw, Hrp.
  destruct Hpost as [[Hph Hpw] | (q & rest & -> & Hq & Hrh & Hrw)].
  - rewrite Hph, Hpw. repeat split; try lia.
    intros l1 e l2 Heq He.
    destruct (split_after_prefix _ _ _ _ _ _ Hw He Heq) as (l1' & _ & Hp).
    now apply (count_zero_no_member _ _ _ _ _ Hpw He) in Hp.
  - assert (Hqw : is_store_write q = false)
      by (destruct q; try discriminate; reflexivity).
    rewrite !count_cons, Hq, Hqw, Hrh.
    split; [lia|]. split; [lia|]. split; [lia|].
    intros l1 e l2 Heq He.
    destruct (split_after_prefix _ _ _ _ _ _ Hw He Heq) as (l1' & -> & Hp).
    destruct l1' as [|q' l1']; cbn in Hp; injection Hp as -> Hp.
    + congruence.
    + rewrite count_app, count_cons, Hh, Hq.
      assert (count is_hss_query l1' = 0).
      { rewrite Hp, count_app in Hrh. lia. }
      lia.
Qed.

(** X15.  The module never removes an entry from the AV store.  The store
    after a request is the store before it, or that store with the
    vector the HSS returned for the request's identities filed under the
    request's private identity. *)
Theorem store_changes_only_by_hss_vector (rdata : pjsip_rx_data) (w : World) :
  let ah := pjsip_msg_find_hdr rdata in
  let impi := challenge_impi ah rdata in
  let w' := snd (authenticate_rx_request P rdata w) in
  (av_store w' = av_store w
   \/ exists n av,
        hss_answer P impi (public_id_from_uri (to_uri rdata))
                   (challenge_autn P ah) = Some av
        /\ av_store w' = <[(impi, n) := av]> (av_store w))
  /\ forall k, is_Some (av_store w !! k) -> is_Some (av_store w' !! k).
Proof.
  intros ah impi w'. subst w'.
  destruct (authenticate_cases rdata w) as (pre & Hq & Hs).
  unfold run_shape in Hs. fold ah impi in Hs.
  destruct Hs as [[_ E] | [(c & _ & E) | [(_ & _ & E)
                 | [(n & av & td & rc & Hh & _ & E) | (rc & _ & E)]]]];
    rewrite E; cbn; try (split; [left; reflexivity | auto]).
  split; [right; eauto|].
  intros k Hk. destruct (decide ((impi, n) = k)) as [<- | Hne].
  - rewrite lookup_insert_eq. eauto.
  - now rewrite lookup_insert_ne.
Qed.

(** X16.  A REGISTER whose response fails verification with a status
    other than no-credentials is answered with the status code of the
    verification and nothing else: no challenge goes out, the HSS is not
    asked and the stored vector stays where it is.  The failure is
    reported to the analytics logger, when there is one, under the user
    name of the first [Authorization] header. *)
Theorem failed_verification_rejected (rdata : pjsip_rx_data) (w w1 : World)
        (h : pjsip_authorization_hdr) (status : pj_status_t) (sc : Z) :
  method rdata = PJSIP_REGISTER_METHOD ->
  pjsip_msg_find_hdr rdata = Some h ->
  integrity_protected P (Some h) = false ->
  nonempty (response (credential h)) = true ->
  pjsip_auth_srv_verify P rdata w = (Some (status, sc), w1) ->
  status <> PJ_SUCCESS ->
  status <> PJSIP_EAUTHNOAUTH ->
  authenticate_rx_request P rdata w
  = (Some PJ_TRUE,
     with_events w1
       (marker_events rdata
          ++ (if analytics P
              then [Analytics_auth_failure (username (credential h))
                                           (to_uri rdata)]
              else [])
          ++ [Respond_stateless sc]))
  /\ av_store w1 = av_store w.
Proof.
  intros Hm Hh Hip Hresp Hv Hs Hn. split.
  - rewrite authenticate_verified; [| exact Hm | now rewrite Hh
                                     | unfold has_response; now rewrite Hh].
    rewrite Hv, Hh.
    destruct (status_eqb status PJ_SUCCESS) eqn:E;
      [apply status_eqb_eq in E; contradiction|].
    rewrite (reject_register _ _ _ _ _ Hm).
    destruct (status_eqb status PJSIP_EAUTHNOAUTH) eqn:E';
      [apply status_eqb_eq in E'; contradiction|].
    now rewrite with_events_app.
  - pose proof (AuthenticationProofs.verify_keeps_store P rdata w) as Hk.
    now rewrite Hv in Hk.
Qed.

(** X17.  When the response to an unauthenticated REGISTER cannot be
    built, the module answers 500 and stops there: the HSS is not asked
    and nothing is stored. *)
Theorem create_response_failure (rdata : pjsip_rx_data) (w : World) :
  method rdata = PJSIP_REGISTER_METHOD ->
  integrity_protected P (pjsip_msg_find_hdr rdata) = false ->
  has_response rdata = false ->
  create_response_status P rdata PJSIP_SC_UNAUTHORIZED <> PJ_SUCCESS ->
  authenticate_rx_request P rdata w
  = (Some PJ_TRUE,
     with_events w (marker_events rdata
                      ++ [Respond_stateless PJSIP_SC_INTERNAL_SERVER_ERROR])).
Proof.
  intros Hm Hip Hresp Hcr.
  rewrite (authenticate_unverified _ _ Hm Hip Hresp).
  rewrite (reject_register _ _ _ _ _ Hm). cbn [status_eqb].
  destruct (status_eqb (create_response_status P rdata PJSIP_SC_UNAUTHORIZED)
                       PJ_SUCCESS) eqn:E;
    [apply status_eqb_eq in E; contradiction|].
  now rewrite with_events_app.
Qed.

(** X18.  An unauthenticated REGISTER of a subscriber with an AKA vector
    is answered 401 with one challenge header: scheme Digest, the
    server's realm, algorithm AKAv1-MD5, the vector's challenge as nonce,
    a random opaque, qop auth, stale false, and the parameters ck and ik
    in that order.  Before that the markers are reported, the HSS is
    asked once and the vector is stored under the private identity and
    the nonce; one random string is drawn. *)
Theorem unauthenticated_register_challenged_aka (rdata : pjsip_rx_data)
        (w : World) (av : Json_av) (aka : aka_av) :
  let ah := pjsip_msg_find_hdr rdata in
  let impi := challenge_impi ah rdata in
  let impu := public_id_from_uri (to_uri rdata) in
  let autn := challenge_autn P ah in
  method rdata = PJSIP_REGISTER_METHOD ->
  integrity_protected P ah = false ->
  has_response rdata = false ->
  create_response_status P rdata PJSIP_SC_UNAUTHORIZED = PJ_SUCCESS ->
  hss_answer P impi impu autn = Some av ->
  av_aka av = Some aka ->
  authenticate_rx_request P rdata w
  = (Some PJ_TRUE,
     mkWorld (<[(impi, aka_challenge aka) := av]> (av_store w))
             (S (random_calls w))
             (trace w ++ marker_events rdata
                ++ [HSS_get_auth_vector impi impu autn;
                    AvStore_set_av impi (aka_challenge aka) av;
                    Send_response
                      (mkTx PJSIP_SC_UNAUTHORIZED
                         [aka_challenge_hdr P aka
                            (random_string P (random_calls w))])])).
Proof.
  intros ah impi impu autn Hm Hip Hresp Hcr Hhss Haka.
  rewrite (authenticate_unverified _ _ Hm Hip Hresp).
  rewrite (reject_register _ _ _ _ _ Hm). cbn [status_eqb]. rewrite Hcr.
  cbn [status_eqb].
  destruct (create_challenge_cases ah rdata (mkTx PJSIP_SC_UNAUTHORIZED [])
                                   (with_events w (marker_events rdata)))
    as [[Hh _] | [(av' & aka' & Hh & Ha & E) | [(av' & d & Hh & Ha & _)
                                               | (av' & Hh & Ha & _)]]];
    fold ah impi impu autn in Hh; try congruence.
  assert (av' = av) by congruence. subst av'.
  assert (aka' = aka) by congruence. subst aka'.
  cbv zeta in E. fold ah impi impu autn in E. fold ah. rewrite E.
  unfold with_events, pjsip_msg_add_hdr.
  cbn -[marker_events aka_challenge_hdr digest_challenge_hdr].
  rewrite <- !app_assoc. reflexivity.
Qed.

(** X19.  For a subscriber with a Digest vector the header has algorithm
    MD5, the first random string drawn as nonce, the second as opaque,
    the vector's qop, stale false and no parameters; the vector is stored
    under the private identity and that first random string. *)
Theorem unauthenticated_register_challenged_digest (rdata : pjsip_rx_data)
        (w : World) (av : Json_av) (digest : digest_av) :
  let ah := pjsip_msg_find_hdr rdata in
  let impi := challenge_impi ah rdata in
  let impu := public_id_from_uri (to_uri rdata) in
  let autn := challenge_autn P ah in
  let nonce := random_string P (random_calls w) in
  method rdata = PJSIP_REGISTER_METHOD ->
  integrity_protected P ah = false ->
  has_response rdata = false ->
  create_response_status P rdata PJSIP_SC_UNAUTHORIZED = PJ_SUCCESS ->
  hss_answer P impi impu autn = Some av ->
  av_aka av = None ->
  av_digest av = Some digest ->
  authenticate_rx_request P rdata w
  = (Some PJ_TRUE,
     mkWorld (<[(impi, nonce) := av]> (av_store w))
             (S (S (random_calls w)))
             (trace w ++ marker_events rdata
                ++ [HSS_get_auth_vector impi impu autn;
                    AvStore_set_av impi nonce av;
                    Send_response
                      (mkTx PJSIP_SC_UNAUTHORIZED
                         [digest_challenge_hdr P digest nonce
                            (random_string P (S (random_calls w)))])])).
Proof.
  intros ah impi impu autn nonce Hm Hip Hresp Hcr Hhss Haka Hdig.
  rewrite (authenticate_unverified _ _ Hm Hip Hresp).
  rewrite (reject_register _ _ _ _ _ Hm). cbn [status_eqb]. rewrite Hcr.
  cbn [status_eqb].
  destruct (create_challenge_cases ah rdata (mkTx PJSIP_SC_UNAUTHORIZED [])
                                   (with_events w (marker_events rdata)))
    as [[Hh _] | [(av' & aka' & Hh & Ha & _) | [(av' & d & Hh & Ha & Hd & E)
                                               | (av' & Hh & Ha & Hd & _)]]];
    fold ah impi impu autn in Hh; try congruence.
  assert (av' = av) by congruence. subst av'.
  assert (d = digest) by congruence. subst d.
  cbv zeta in E. fold ah impi impu autn in E. fold ah. rewrite E.
  unfold with_events, pjsip_msg_add_hdr.
  cbn -[marker_events aka_challenge_hdr digest_challenge_hdr].
  rewrite <- !app_assoc. reflexivity.
Qed.

(** X20.  The vector filed by [create_challenge] is the one [user_lookup]
    finds for a request that echoes the nonce of the challenge header
    under the same private identity: the lookup succeeds and hands back
    the vector's secret, the AKA response as a plain password or the
    Digest [ha1] as a digest. *)
Theorem stored_vector_found_by_lookup
        (auth_hdr : option pjsip_authorization_hdr)
        (rdata rdata2 : pjsip_rx_data) (tdata tdata' : pjsip_tx_data)
        (w w' : World) (av : Json_av) (hdr : pjsip_www_authenticate_hdr)
        (h2 : pjsip_authorization_hdr) (realm0 : string)
        (ci : pjsip_cred_info) :
  let impi := challenge_impi auth_hdr rdata in
  hss_answer P impi (public_id_from_uri (to_uri rdata))
             (challenge_autn P auth_hdr) = Some av ->
  create_challenge P auth_hdr rdata tdata w = (Some tdata', w') ->
  www_authenticate_hdrs tdata' = www_authenticate_hdrs tdata ++ [hdr] ->
  pjsip_msg_find_hdr rdata2 = Some h2 ->
  nonce (credential h2) = ch_nonce (challenge hdr) ->
  exists ty data,
    stored_secret av = Some (ty, data)
    /\ fst (user_lookup (mkLookup realm0 impi rdata2) ci w')
       = Some (PJ_SUCCESS, mkCred realm0 "digest" impi ty data).
Proof.
  intros impi Hhss Hcc Hlast Hh2 Hnonce.
  unfold user_lookup. cbn [lk_acc_name lk_realm lk_rdata]. rewrite Hh2.
  unfold get_av, bind, ret. rewrite Hnonce.
  destruct (create_challenge_cases auth_hdr rdata tdata w)
    as [[Hh E] | [(av' & aka & Hh & Ha & E) | [(av' & d & Hh & Ha & Hd & E)
                                              | (av' & Hh & _ & _ & E)]]];
    fold impi in Hh; cbv zeta in E; fold impi in E; rewrite E in Hcc;
    try congruence;
    assert (av' = av) by congruence; subst av';
    injection Hcc as <- <-;
    unfold pjsip_msg_add_hdr in Hlast; cbn in Hlast;
    apply app_inj_tail in Hlast; destruct Hlast as [_ <-]; cbn;
    rewrite lookup_insert_eq; unfold stored_secret.
  - rewrite Ha. cbn. eauto.
  - rewrite Ha, Hd. cbn. eauto.
Qed.

(** X21.  Only the first [integrity-protected] parameter counts: when its
    value is not one of the trusted ones, a REGISTER without a response
    is absorbed, whatever parameters follow it. *)
Theorem first_integrity_flag_decides (rdata : pjsip_rx_data)
        (h : pjsip_authorization_hdr) (pre post : list pjsip_param)
        (p : pjsip_param) (w : World) :
  method rdata = PJSIP_REGISTER_METHOD ->
  pjsip_msg_find_hdr rdata = Some h ->
  nonempty (response (credential h)) = false ->
  other_param (credential h) = pre ++ p :: post ->
  List.Forall
    (fun q => lower (name q) <> lower (STR_INTEGRITY_PROTECTED P)) pre ->
  lower (name p) = lower (STR_INTEGRITY_PROTECTED P) ->
  lower (value p) <> lower (STR_YES P) ->
  lower (value p) <> lower (STR_TLS_YES P) ->
  lower (value p) <> lower (STR_IP_ASSOC_YES P) ->
  fst (authenticate_rx_request P rdata w) <> Some PJ_FALSE.
Proof.
  intros Hm Hh Hresp Hparams Hpre Hname H1 H2 H3.
  assert (Hip : integrity_protected P (pjsip_msg_find_hdr rdata) = false).
  { rewrite Hh. unfold integrity_protected. rewrite Hparams.
    rewrite (AuthenticationProofs.pjsip_param_find_first pre post p _ Hpre Hname).
    apply AuthenticationProofs.pj_stricmp_neqb in H1, H2, H3.
    now rewrite H1, H2, H3. }
  rewrite (authenticate_unverified _ _ Hm Hip).
  - now apply reject_never_passes.
  - unfold has_response. now rewrite Hh.
Qed.

(** X22.  A request without an [Authorization] header, or whose header
    has no parameter named [STR_AUTN], makes [create_challenge] ask the
    HSS with an empty resync token. *)
Theorem no_resync_token (auth_hdr : option pjsip_authorization_hdr)
        (rdata : pjsip_rx_data) (tdata : pjsip_tx_data) (w : World) :
  match auth_hdr with
  | Some h =>
      List.Forall (fun q => lower (name q) <> lower (STR_AUTN P))
                  (other_param (credential h))
  | None => True
  end ->
  exists rest,
    trace (snd (create_challenge P auth_hdr rdata tdata w))
    = trace w
        ++ HSS_get_auth_vector (challenge_impi auth_hdr rdata)
                               (public_id_from_uri (to_uri rdata)) ""
        :: rest.
Proof.
  intros H.
  destruct (AuthenticationProofs.create_challenge_trace P auth_hdr rdata tdata w)
    as (rest & E & _).
  exists rest. rewrite E.
  replace (challenge_autn P auth_hdr) with ""; [reflexivity|].
  destruct auth_hdr as [h|]; [|reflexivity].
  symmetry. now apply AuthenticationProofs.resync_token_absent.
Qed.

End Module_auth_trace.

(** ** On the sample deployment *)

(** X11, on the answer to alice's challenge. *)
Lemma register_passes_only_verified_witness :
  exists h h_auth av ci,
    pjsip_msg_find_hdr sample_answer = Some h
    /\ nonempty (response (credential h)) = true
    /\ verified_hdr sample_platform sample_answer = Some h_auth
    /\ av_store challenged_world
         !! (username (credential h_auth), nonce (credential h)) = Some av
    /\ stored_secret av = Some (ci_data_type ci, ci_data ci)
    /\ pjsip_auth_verify sample_platform h_auth (method sample_answer) ci
       = PJ_SUCCESS.
Proof.
  apply (register_passes_only_verified sample_platform sample_answer
                                       challenged_world).
  - reflexivity.
  - reflexivity.
  - vm_compute. reflexivity.
Defined.

(** X12, on the same answer. *)
Lemma passed_request_is_silent_witness :
  exists pre,
    snd (authenticate_rx_request sample_platform sample_answer challenged_world)
    = with_events challenged_world pre
    /\ quiet pre.
Proof.
  apply (passed_request_is_silent sample_platform sample_answer
                                  challenged_world).
  vm_compute. reflexivity.
Defined.

(** X13, on alice's first REGISTER. *)
Lemma absorbed_request_one_response_witness :
  exists pre resp,
    trace (snd (authenticate_rx_request sample_platform (sample_register [])
                                        empty_world))
    = trace empty_world ++ pre ++ [resp]
    /\ is_response resp = true
    /\ count is_response pre = 0.
Proof.
  apply (absorbed_request_one_response sample_platform (sample_register [])
                                       empty_world).
  vm_compute. reflexivity.
Defined.

(** X16, on a wrong answer to alice's challenge. *)
Lemma failed_verification_rejected_witness :
  fst (authenticate_rx_request sample_platform wrong_answer challenged_world)
  = Some PJ_TRUE
  /\ av_store (snd (pjsip_auth_srv_verify sample_platform wrong_answer
                                          challenged_world))
     = av_store challenged_world.
Proof.
  destruct (failed_verification_rejected sample_platform wrong_answer
              challenged_world
              (snd (pjsip_auth_srv_verify sample_platform wrong_answer
                                          challenged_world))
              (sample_credential "alice@example.com" "abc123" "bad" [])
              PJSIP_EAUTHINVALIDDIGEST PJSIP_SC_FORBIDDEN) as [H1 H2].
  - reflexivity.
  - reflexivity.
  - reflexivity.
  - reflexivity.
  - vm_compute. reflexivity.
  - discriminate.
  - discriminate.
  - split; [rewrite H1; reflexivity | exact H2].
Defined.

(** X17, where [create_response] fails. *)
Lemma create_response_failure_witness :
  authenticate_rx_request failing_platform (sample_register []) empty_world
  = (Some PJ_TRUE,
     with_events empty_world
       (marker_events (sample_register [])
          ++ [Respond_stateless PJSIP_SC_INTERNAL_SERVER_ERROR])).
Proof.
  apply (create_response_failure failing_platform (sample_register [])
                                 empty_world).
  - reflexivity.
  - reflexivity.
  - reflexivity.
  - discriminate.
Defined.

(** X18, on alice's first REGISTER. *)
Lemma unauthenticated_register_challenged_aka_witness :
  fst (authenticate_rx_request sample_platform (sample_register []) empty_world)
  = Some PJ_TRUE.
Proof.
  rewrite (unauthenticated_register_challenged_aka sample_platform
             (sample_register []) empty_world sample_aka
             (mkAka "abc123" "res-1" "ck-1" "ik-1"));
    reflexivity.
Defined.

(** X19, on bob's first REGISTER. *)
Lemma unauthenticated_register_challenged_digest_witness :
  fst (authenticate_rx_request sample_platform
         (sample_request PJSIP_REGISTER_METHOD "bob" []) empty_world)
  = Some PJ_TRUE.
Proof.
  rewrite (unauthenticated_register_challenged_digest sample_platform
             (sample_request PJSIP_REGISTER_METHOD "bob" []) empty_world
             sample_digest
             (mkDigest "example.com" "auth" "d41d8cd98f00b204e9800998ecf8427e"));
    reflexivity.
Defined.

(** X20, on alice's challenge and her answer. *)
Lemma stored_vector_found_by_lookup_witness :
  exists ty data,
    stored_secret sample_aka = Some (ty, data)
    /\ fst (user_lookup (mkLookup "example.com" "alice@example.com"
                                  sample_answer)
                        (mkCred "" "" "" PJSIP_CRED_DATA_PLAIN_PASSWD "")
                        (snd (create_challenge sample_platform None
                                (sample_register [])
                                (mkTx PJSIP_SC_UNAUTHORIZED []) empty_world)))
       = Some (PJ_SUCCESS,
               mkCred "example.com" "digest" "alice@example.com" ty data).
Proof.
  apply (stored_vector_found_by_lookup sample_platform None
           (sample_register []) sample_answer
           (mkTx PJSIP_SC_UNAUTHORIZED [])
           (mkTx PJSIP_SC_UNAUTHORIZED
                 [aka_challenge_hdr sample_platform
                    (mkAka "abc123" "res-1" "ck-1" "ik-1") "0123456789abcdef"])
           empty_world _ sample_aka
           (aka_challenge_hdr sample_platform
              (mkAka "abc123" "res-1" "ck-1" "ik-1") "0123456789abcdef")
           (sample_credential "alice@example.com" "abc123" "res-1" [])).
  - reflexivity.
  - vm_compute. reflexivity.
  - reflexivity.
  - reflexivity.
  - reflexivity.
Defined.

(** X21, on a REGISTER whose second flag says yes. *)
Lemma first_integrity_flag_decides_witness :
  fst (authenticate_rx_request sample_platform two_flags_request empty_world)
  <> Some PJ_FALSE.
Proof.
  apply (first_integrity_flag_decides sample_platform two_flags_request
           (sample_credential "alice@example.com" "" ""
              [mkParam "integrity-protected" "no";
               mkParam "integrity-protected" "yes"])
           [] [mkParam "integrity-protected" "yes"]
           (mkParam "integrity-protected" "no") empty_world).
  - reflexivity.
  - reflexivity.
  - reflexivity.
  - reflexivity.
  - constructor.
  - reflexivity.
  - cbn. discriminate.
  - cbn. discriminate.
  - cbn. discriminate.
Defined.

(** X15, on a wrong answer to alice's challenge: her vector is still
    stored afterwards. *)
Lemma store_changes_only_by_hss_vector_witness :
  is_Some (av_store (snd (authenticate_rx_request sample_platform wrong_answer
                                                  challenged_world))
             !! ("alice@example.com", "abc123")).
Proof.
  apply (proj2 (store_changes_only_by_hss_vector sample_platform wrong_answer
                                                 challenged_world)).
  exists sample_aka. vm_compute. reflexivity.
Defined.

(** X14, on alice's first REGISTER: before the store write stand the
    markers and the HSS query. *)
Lemma one_hss_query_at_most_witness :
  count is_hss_query
        (marker_events (sample_register [])
           ++ [HSS_get_auth_vector "alice@example.com"
                                   "sip:alice@example.com" ""])
  = 1.
Proof.
  destruct (one_hss_query_at_most sample_platform (sample_register [])
                                  empty_world)
    as (new & Htrace & _ & _ & _ & Horder).
  cbn [trace empty_world app] in Htrace.
  apply (Horder _ (AvStore_set_av "alice@example.com" "abc123" sample_aka)
                [Send_response
                   (mkTx PJSIP_SC_UNAUTHORIZED
                      [aka_challenge_hdr sample_platform
                         (mkAka "abc123" "res-1" "ck-1" "ik-1")
                         "0123456789abcdef"])]).
  - rewrite <- Htrace. vm_compute. reflexivity.
  - reflexivity.
Defined.

(** C5 as stated fails.  The credential header of this REGISTER carries
    an [integrity-protected] parameter with the trusted value [yes],
    behind one with the value [no].  The request does not bypass
    authentication: it is absorbed and challenged, the HSS is asked and
    the vector is stored. *)
Lemma trusted_flag_behind_untrusted_not_bypassed :
  (exists h p,
     pjsip_msg_find_hdr two_flags_request = Some h
     /\ In p (other_param (credential h))
     /\ pj_stricmp (name p) (STR_INTEGRITY_PROTECTED sample_platform) = 0%Z
     /\ pj_stricmp (value p) (STR_YES sample_platform) = 0%Z)
  /\ fst (authenticate_rx_request sample_platform two_flags_request
                                  empty_world) = Some PJ_TRUE
  /\ count is_hss_query
        (trace (snd (authenticate_rx_request sample_platform two_flags_request
                                             empty_world))) = 1
  /\ count is_store_write
        (trace (snd (authenticate_rx_request sample_platform two_flags_request
                                             empty_world))) = 1
  /\ count is_response
        (trace (snd (authenticate_rx_request sample_platform two_flags_request
                                             empty_world))) = 1.
Proof.
  split.
  - eexists _, (mkParam "integrity-protected" "yes").
    split; [reflexivity|]. split; [right; left; reflexivity|].
    split; reflexivity.
  - repeat split; vm_compute; reflexivity.
Qed.

(** X22, on a header whose only parameter is not the resync token. *)
Lemma no_resync_token_witness :
  exists rest,
    trace (snd (create_challenge sample_platform
                  (Some (sample_credential "" "" "" [mkParam "x" "1"]))
                  (sample_register []) (mkTx PJSIP_SC_UNAUTHORIZED [])
                  empty_world))
    = trace empty_world
        ++ HSS_get_auth_vector "alice@example.com" "sip:alice@example.com" ""
        :: rest.
Proof.
  apply (no_resync_token sample_platform
           (Some (sample_credential "" "" "" [mkParam "x" "1"]))
           (sample_register []) (mkTx PJSIP_SC_UNAUTHORIZED []) empty_world).
  repeat constructor. cbn. discriminate.
Defined.

End AuthenticationTraceProofs.
